(** * Conway's Game of Life (vasylenkoval/gameoflife): the engine of game.js

    The program keeps its whole state in the DOM: the element [#grid] has one
    child per row, every row has one child per cell, a cell carries the id
    [`${rowIdx}-${colIdx}`] and is alive when it has a [data-alive] attribute.
    Two versions of the script are modelled side by side:

    - [GameJs]  : src/game.js, whose [render] scans the grid with two loops;
    - [Part000] : src/unnamed/part_000, whose [render] starts from the alive
                  cells and visits their neighbours.

    Everything the two files share ([pause], [play], [initGrid], the cell
    handlers, the clear button) is modelled once. *)

From Stdlib Require Import ZArith Lia String Ascii List.
From stdpp Require Import base numbers list strings pretty gmap.

Local Open Scope Z_scope.

(** ** JavaScript values the program computes with *)

(** A JS number that is an integer or [NaN] ([None]). *)
Abbreviation JsNum := (option Z).

(** String conversion of a number inside a template literal. *)
Definition showNum (n : JsNum) : string :=
  match n with
  | Some z => pretty z
  | None => "NaN"
  end.

(** The value of a decimal digit: the characters with codes 48 to 57. *)
Definition digit (c : ascii) : option N :=
  let code := N_of_ascii c in
  if decide (48 ≤ code ∧ code ≤ 57)%N then Some (code - 48)%N else None.

Fixpoint digits (s : string) (acc : N) : option N :=
  match s with
  | EmptyString => Some acc
  | String c s' =>
      match digit c with
      | Some d => digits s' (acc * 10 + d)%N
      | None => None
      end
  end.

(** [Number(s)] on the strings this program passes to it: the pieces of a
    cell id, which are decimal integer literals. [Number("")] is [0]; a
    string that is not an optionally signed run of decimal digits is mapped
    to [NaN] (JS would also accept blanks, exponents, hex and fractions; no
    id written by [initGrid] has them). [Number(undefined)] is [NaN]. *)
Definition Number (s : option string) : JsNum :=
  match s with
  | None => None
  | Some EmptyString => Some 0
  | Some (String c s') =>
      if decide (c = "-"%char) then
        if decide (s' = EmptyString) then None
        else (λ n, - Z.of_N n) <$> digits s' 0
      else Z.of_N <$> digits (String c s') 0
  end.

(** [s.split(sep)] for a one-character separator. *)
Fixpoint split (sep : ascii) (s : string) : list string :=
  match s with
  | EmptyString => [EmptyString]
  | String c s' =>
      if decide (c = sep) then EmptyString :: split sep s'
      else match split sep s' with
           | x :: xs => String c x :: xs
           | [] => [String c EmptyString]
           end
  end.

(** [n - k] and [n + k] on JS numbers. *)
Definition numSub (n : JsNum) (k : Z) : JsNum := (λ z, z - k) <$> n.
Definition numAdd (n : JsNum) (k : Z) : JsNum := (λ z, z + k) <$> n.

(** The template literal [`${rowIdx}-${colIdx}`]. *)
Definition cellIdNum (rowIdx colIdx : JsNum) : string :=
  showNum rowIdx +:+ "-" +:+ showNum colIdx.

Definition cellId (rowIdx colIdx : Z) : string :=
  cellIdNum (Some rowIdx) (Some colIdx).

(** ** The DOM under [#grid] *)

(** A [.col] element: its [id] and its [data-alive] attribute (absent, or
    the attribute's string). *)
Record Element := mkElement {
  node_id : string;
  data_alive : option string
}.

Global Instance Element_eq_dec : EqDecision Element.
Proof. solve_decision. Defined.

(** [#grid]'s child nodes are the rows, a row's child nodes are its cells. *)
Abbreviation Row := (list Element).
Abbreviation Grid := (list (list Element)).

(** A node handle: the element's place in the tree (row, then column). *)
Abbreviation NodeRef := (nat * nat)%type.

Definition nodeAt (g : Grid) (n : NodeRef) : option Element :=
  match g !! n.1 with
  | Some row => row !! n.2
  | None => None
  end.

(** The cells in document (tree) order, each with its handle. *)
Definition cells (g : Grid) : list (NodeRef * Element) :=
  mjoin (imap (λ i row, imap (λ j e, ((i, j), e)) row) g).

(** [document.getElementById(s)]: first element in tree order with that id,
    [null] ([None]) when there is none. Only cells carry ids of the shape
    the program asks for. *)
Definition getElementById (g : Grid) (s : string) : option NodeRef :=
  (λ r, r.2.1) <$> list_find (λ ne, node_id ne.2 = s) (cells g).

Definition getNodeNum (g : Grid) (rowIdx colIdx : JsNum) : option NodeRef :=
  getElementById g (cellIdNum rowIdx colIdx).

(** [getNode] of [render]. *)
Definition getNode (g : Grid) (rowIdx colIdx : Z) : option NodeRef :=
  getNodeNum g (Some rowIdx) (Some colIdx).

(** Truthiness of a string: every string but the empty one. *)
Definition truthy (s : string) : bool :=
  if decide (s = EmptyString) then false else true.

(** Truthiness of [node.dataset.alive] ([undefined] when absent). *)
Definition aliveTruthy (e : Element) : bool :=
  match data_alive e with
  | Some s => truthy s
  | None => false
  end.

(** [node.dataset.alive === 'true']. *)
Definition aliveIsTrue (e : Element) : bool :=
  match data_alive e with
  | Some s => if decide (s = "true"%string) then true else false
  | None => false
  end.

(** [getIsNodeAlive] of [render]: [!!(node && node.dataset.alive)]. *)
Definition getIsNodeAlive (g : Grid) (node : option NodeRef) : bool :=
  match node with
  | None => false
  | Some n =>
      match nodeAt g n with
      | Some e => aliveTruthy e
      | None => false
      end
  end.

(** Writing the attribute of one node. *)
Definition withAlive (v : option string) (e : Element) : Element :=
  {| node_id := node_id e; data_alive := v |}.

Definition updateNode (f : Element → Element) (n : NodeRef) (g : Grid) : Grid :=
  alter (alter f n.2) n.1 g.

(** [node.removeAttribute('data-alive')]. *)
Definition removeAlive (n : NodeRef) (g : Grid) : Grid :=
  updateNode (withAlive None) n g.

(** [node.dataset.alive = 'true']. *)
Definition setAliveTrue (n : NodeRef) (g : Grid) : Grid :=
  updateNode (withAlive (Some "true"%string)) n g.

(** An abrupt completion carries the DOM as it was when the error was
    thrown. *)
Inductive JsError := TypeError.

Inductive Completion :=
  | Normal (g : Grid)
  | Throw (e : JsError) (g : Grid).

Definition domOf (c : Completion) : Grid :=
  match c with
  | Normal g => g
  | Throw _ g => g
  end.

(** ** The generation step: what both versions of [render] share *)

(** The object [neighbors] of [render], as [Object.values] lists it:
    topLeft, top, topRight, right, bottomRight, bottom, bottomLeft, left. *)
Definition neighborsNum (g : Grid) (rowIdx colIdx : JsNum) : list (option NodeRef) :=
  [ getNodeNum g (numSub rowIdx 1) (numSub colIdx 1);
    getNodeNum g (numSub rowIdx 1) colIdx;
    getNodeNum g (numSub rowIdx 1) (numAdd colIdx 1);
    getNodeNum g rowIdx (numAdd colIdx 1);
    getNodeNum g (numAdd rowIdx 1) (numAdd colIdx 1);
    getNodeNum g (numAdd rowIdx 1) colIdx;
    getNodeNum g (numAdd rowIdx 1) (numSub colIdx 1);
    getNodeNum g rowIdx (numSub colIdx 1) ].

Definition neighbors (g : Grid) (rowIdx colIdx : Z) : list (option NodeRef) :=
  neighborsNum g (Some rowIdx) (Some colIdx).

(** The two arrays a step fills before it touches the DOM. An entry is a
    node handle or [null]. *)
Record Lists := mkLists {
  nodesToKill : list (option NodeRef);
  nodesToResurrect : list (option NodeRef)
}.

Definition pushKill (node : option NodeRef) (l : Lists) : Lists :=
  {| nodesToKill := nodesToKill l ++ [node];
     nodesToResurrect := nodesToResurrect l |}.

Definition pushResurrect (node : option NodeRef) (l : Lists) : Lists :=
  {| nodesToKill := nodesToKill l;
     nodesToResurrect := nodesToResurrect l ++ [node] |}.

(** [for (let node of nodes) { <write to node> }]: writing through [null]
    throws a [TypeError] and leaves the loop. *)
Fixpoint forOf (write : NodeRef → Grid → Grid) (nodes : list (option NodeRef))
    (g : Grid) : Completion :=
  match nodes with
  | [] => Normal g
  | None :: _ => Throw TypeError g
  | Some n :: nodes' => forOf write nodes' (write n g)
  end.

(** The two loops that end [render]. *)
Definition applyLists (l : Lists) (g : Grid) : Completion :=
  match forOf removeAlive (nodesToKill l) g with
  | Normal g1 => forOf setAliveTrue (nodesToResurrect l) g1
  | Throw e g1 => Throw e g1
  end.

(** ** src/game.js *)

Module GameJs.

(** Body of the inner loop of [render]. *)
Definition visit (g : Grid) (rowIdx colIdx : Z) (l : Lists) : Lists :=
  let node := getNode g rowIdx colIdx in
  let isAlive := getIsNodeAlive g node in
  let aliveNeighbors :=
    length (List.filter (getIsNodeAlive g) (neighbors g rowIdx colIdx)) in
  if isAlive then
    if decide (aliveNeighbors = 2%nat ∨ aliveNeighbors = 3%nat) then l
    else pushKill node l
  else if decide (aliveNeighbors = 3%nat) then pushResurrect node l
  else l.

(** The index pairs [(rowIdx, colIdx)] in the order the two [for] loops
    produce them: [colIdx] runs over [0 .. colsLength - 1] outside,
    [rowIdx] over [0 .. rowsLength - 1] inside. *)
Definition loopIndices (colsLength rowsLength : nat) : list (Z * Z) :=
  colIdx ← seqZ 0 (Z.of_nat colsLength);
  rowIdx ← seqZ 0 (Z.of_nat rowsLength);
  [(rowIdx, colIdx)].

(** What the loops of [render] visit on a grid: [colsLength] is the number
    of children of [#grid], [rowsLength] the number of children of its first
    child. *)
Definition scanned (g : Grid) : list (Z * Z) :=
  match g with
  | [] => []
  | row0 :: _ => loopIndices (length g) (length row0)
  end.

Definition collect (g : Grid) : Lists :=
  foldl (λ l rc, visit g rc.1 rc.2 l) (mkLists [] []) (scanned g).

Definition render (g : Grid) : Completion :=
  match g with
  | [] => Throw TypeError g   (* grid.childNodes[0] is undefined *)
  | _ :: _ => applyLists (collect g) g
  end.

End GameJs.

(** ** src/unnamed/part_000 *)

Module Part000.

(** [seen] and the two arrays. *)
Record CheckState := mkCheckState {
  seen : gset string;
  lists : Lists
}.

Definition idOf (g : Grid) (node : NodeRef) : string :=
  match nodeAt g node with
  | Some e => node_id e
  | None => EmptyString
  end.

(** [check(node, recurse)], with the nested call [check(cell)] passed in as
    [inner]. *)
Definition checkWith (g : Grid) (inner : NodeRef → CheckState → CheckState)
    (node : NodeRef) (recurse : bool) (st : CheckState) : CheckState :=
  if decide (idOf g node ∈ seen st) then st
  else
    let ids := split "-" (idOf g node) in
    let rowIdx := Number (ids !! 0%nat) in
    let colIdx := Number (ids !! 1%nat) in
    let neighborsArr := omap (λ n, n) (neighborsNum g rowIdx colIdx) in
    let st1 := if recurse then foldl (λ st cell, inner cell st) st neighborsArr
               else st in
    let isAlive := getIsNodeAlive g (Some node) in
    let aliveNeighbors :=
      length (List.filter (λ n, getIsNodeAlive g (Some n)) neighborsArr) in
    let st2 := {| seen := {[ idOf g node ]} ∪ seen st1; lists := lists st1 |} in
    if isAlive then
      if decide (aliveNeighbors = 2%nat ∨ aliveNeighbors = 3%nat) then st2
      else {| seen := seen st2; lists := pushKill (Some node) (lists st2) |}
    else if decide (aliveNeighbors = 3%nat)
      then {| seen := seen st2; lists := pushResurrect (Some node) (lists st2) |}
    else st2.

(** [check(cell)]: [recurse] is [false], no nested call is made. *)
Definition checkCell (g : Grid) (cell : NodeRef) (st : CheckState) : CheckState :=
  checkWith g (λ _ st', st') cell false st.

(** [check(node, recurse)]. *)
Definition check (g : Grid) (node : NodeRef) (recurse : bool)
    (st : CheckState) : CheckState :=
  checkWith g (checkCell g) node recurse st.

(** [document.querySelectorAll('[data-alive]')]: the elements that have the
    attribute, whatever its value, in document order. *)
Definition querySelectorAllAlive (g : Grid) : list NodeRef :=
  fst <$> List.filter (λ ne, bool_decide (is_Some (data_alive ne.2))) (cells g).

Definition collect (g : Grid) : CheckState :=
  foldl (λ st node, check g node true st) (mkCheckState ∅ (mkLists [] []))
    (querySelectorAllAlive g).

Definition render (g : Grid) : Completion :=
  applyLists (lists (collect g)) g.

End Part000.

(** ** The game object and the browser state it relies on *)

Definition CELL_DIMS : Z := 32.

(** [DRAG_TYPE]. *)
Inductive DragType := DRAG_delete | DRAG_add.

Global Instance DragType_eq_dec : EqDecision DragType.
Proof. solve_decision. Defined.

(** [this.state] together with what the handlers reach in the browser: the
    label of [#playBtn], the class [grid--deleteMode] of [#grid], and the
    intervals that [setInterval] has started and [clearInterval] has not
    cancelled. Every active interval calls [render] when it fires. *)
Record State := mkState {
  dragType : option DragType;
  intervalMs : Z;
  intervalId : option nat;
  grid : Grid;
  playBtnText : string;
  deleteModeClass : bool;
  intervals : gset nat;
  nextIntervalId : nat
}.

Definition withGrid (g : Grid) (s : State) : State :=
  {| dragType := dragType s; intervalMs := intervalMs s;
     intervalId := intervalId s; grid := g;
     playBtnText := playBtnText s; deleteModeClass := deleteModeClass s;
     intervals := intervals s; nextIntervalId := nextIntervalId s |}.

(** [clearInterval(id)]: cancels the interval with that id when there is
    one; [clearInterval(undefined)] does nothing. *)
Definition clearInterval (id : option nat) (active : gset nat) : gset nat :=
  match id with
  | Some i => active ∖ {[ i ]}
  | None => active
  end.

Definition pause (s : State) : State :=
  {| dragType := dragType s; intervalMs := intervalMs s;
     intervalId := None; grid := grid s;
     playBtnText := "Start"; deleteModeClass := deleteModeClass s;
     intervals := clearInterval (intervalId s) (intervals s);
     nextIntervalId := nextIntervalId s |}.

(** [setInterval] hands out a handle that no running timer has. *)
Definition play (s : State) : State :=
  {| dragType := dragType s; intervalMs := intervalMs s;
     intervalId := Some (nextIntervalId s); grid := grid s;
     playBtnText := "Pause"; deleteModeClass := deleteModeClass s;
     intervals := {[ nextIntervalId s ]} ∪ intervals s;
     nextIntervalId := S (nextIntervalId s) |}.

(** The click listener of [#playBtn]. *)
Definition playBtnClick (s : State) : State :=
  match intervalId s with
  | None => play s
  | Some _ => pause s
  end.

(** [clearBtn.onclick]. *)
Definition clearBtnClick (s : State) : State :=
  let s1 := pause s in
  withGrid
    ((λ row : list Element,
        (λ col, if aliveTruthy col then withAlive None col else col) <$> row)
       <$> grid s1) s1.

(** What an event on the grid can have as its target: a [.col] cell, or
    another element (a row, or [#grid] itself). *)
Inductive Target :=
  | OnCol (n : NodeRef)
  | OnOther.

(** [event.target.dataset.alive !== 'true'] for a [.col] target. *)
Definition targetNotTrue (g : Grid) (n : NodeRef) : bool :=
  match nodeAt g n with
  | Some e => negb (aliveIsTrue e)
  | None => true
  end.

(** The part of [onDrag] both files have. *)
Definition onDragBody (isDragStart : bool) (target : Target) (s : State) : State :=
  let s1 :=
    if negb isDragStart then
      {| dragType := None; intervalMs := intervalMs s;
         intervalId := intervalId s; grid := grid s;
         playBtnText := playBtnText s; deleteModeClass := false;
         intervals := intervals s; nextIntervalId := nextIntervalId s |}
    else s in
  match isDragStart, target with
  | true, OnCol n =>
      let dt := if targetNotTrue (grid s1) n then DRAG_delete else DRAG_add in
      {| dragType := Some dt; intervalMs := intervalMs s1;
         intervalId := intervalId s1; grid := grid s1;
         playBtnText := playBtnText s1;
         deleteModeClass :=
           if decide (dt = DRAG_delete) then true else deleteModeClass s1;
         intervals := intervals s1; nextIntervalId := nextIntervalId s1 |}
  | _, _ => s1
  end.

(** [column.onmousedown]. *)
Definition onmousedown (n : NodeRef) (g : Grid) : Grid :=
  match nodeAt g n with
  | Some e => if aliveIsTrue e then removeAlive n g else setAliveTrue n g
  | None => g
  end.

(** [column.onmouseenter]. *)
Definition onmouseenter (n : NodeRef) (s : State) : State :=
  match dragType s with
  | Some DRAG_delete => withGrid (removeAlive n (grid s)) s
  | Some DRAG_add => withGrid (setAliveTrue n (grid s)) s
  | None => s
  end.

(** [[...xs].slice(0, n)]: a negative [n] counts from the end. *)
Definition sliceTo {A : Type} (n : Z) (xs : list A) : list A :=
  if decide (n < 0) then take (Z.to_nat (Z.max (Z.of_nat (length xs) + n) 0)) xs
  else take (Z.to_nat n) xs.

(** [Math.floor((height / CELL_DIMS) * 1.5)] and
    [Math.ceil((width / CELL_DIMS) * CELLS_MULTIPLIER)] for a viewport
    measured in whole pixels: dividing by 32 and multiplying by 1.5 are
    exact on such numbers, so the value rounded is the rational
    [3 * height / 64]. *)
Definition reqRowsOf (height : Z) : Z := (3 * height) `div` (2 * CELL_DIMS).
Definition reqColsOf (width : Z) : Z := - ((- (3 * width)) `div` (2 * CELL_DIMS)).

(** A cell as [initGrid] creates it. *)
Definition newColumn (rowIdx colIdx : Z) : Element :=
  {| node_id := cellId rowIdx colIdx; data_alive := None |}.

(** The row part of [initGrid]. *)
Definition reconcileRows (reqRows : Z) (g : Grid) : Grid :=
  let currRows := Z.of_nat (length g) in
  if decide (currRows > reqRows) then sliceTo reqRows g
  else g ++ replicate (Z.to_nat (reqRows - currRows)) [].

(** The column part of [initGrid], for the row at [rowIdx]. *)
Definition reconcileCols (reqCols : Z) (rowIdx : nat) (row : list Element)
    : list Element :=
  let currCols := Z.of_nat (length row) in
  if decide (currCols > reqCols) then sliceTo reqCols row
  else row ++ (newColumn (Z.of_nat rowIdx) <$> seqZ currCols (reqCols - currCols)).

Definition initGridDom (height width : Z) (g : Grid) : Grid :=
  let reqRows := reqRowsOf height in
  let rows := reconcileRows reqRows g in
  imap (λ rowIdx row, reconcileCols (reqColsOf width) rowIdx row) rows.

Definition initGrid (height width : Z) (s : State) : State :=
  withGrid (initGridDom height width (grid s)) s.

(** ** Events *)

(** What differs between the two files: the generation step, and whether
    the drag listeners stop the clock. *)
Record Script := mkScript {
  render : Grid → Completion;
  onDrag : bool → Target → State → State
}.

Definition gameJs : Script :=
  {| render := GameJs.render;
     onDrag := λ isDragStart target s, onDragBody isDragStart target (pause s) |}.

Definition part000 : Script :=
  {| render := Part000.render;
     onDrag := onDragBody |}.

(** An uncaught error in a timer callback is reported and dropped: the DOM
    stays as the callback left it and the interval keeps running. *)
Definition tick (sc : Script) (s : State) : State :=
  withGrid (domOf (render sc (grid s))) s.

Inductive Event :=
  | PlayBtnClick
  | ClearBtnClick
  | MouseDown (target : Target)
  | MouseUp
  | TouchStart (target : Target)
  | TouchEnd
  | MouseEnter (n : NodeRef)
  | WindowResize (height width : Z)
  | IntervalFires (id : nat).

(** Listeners in dispatch order: a [mousedown] on a cell first runs the
    cell's own [onmousedown], then bubbles to the listener on [#grid]; the
    cells have no touch listeners; [mouseenter] does not bubble. In
    part_000 the resize listener is debounced, [WindowResize] is then the
    moment the debounced callback runs. *)
Definition dispatch (sc : Script) (ev : Event) (s : State) : State :=
  match ev with
  | PlayBtnClick => playBtnClick s
  | ClearBtnClick => clearBtnClick s
  | MouseDown (OnCol n) =>
      onDrag sc true (OnCol n) (withGrid (onmousedown n (grid s)) s)
  | MouseDown OnOther => onDrag sc true OnOther s
  | MouseUp => onDrag sc false OnOther s
  | TouchStart target => onDrag sc true target s
  | TouchEnd => onDrag sc false OnOther s
  | MouseEnter n => onmouseenter n s
  | WindowResize height width => initGrid height width s
  | IntervalFires _ => tick sc s
  end.

(** An event can only happen on an element that is in the document, and a
    timer can only fire while it is active. *)
Definition enabled (ev : Event) (s : State) : Prop :=
  match ev with
  | MouseDown (OnCol n) | TouchStart (OnCol n) | MouseEnter n =>
      is_Some (nodeAt (grid s) n)
  | IntervalFires id => id ∈ intervals s
  | _ => True
  end.

(** The state after [game.init()], for the label [#playBtn] has in the page
    and the size of the window. *)
Definition boot (label : string) (height width : Z) : State :=
  initGrid height width
    {| dragType := None; intervalMs := 100; intervalId := None; grid := [];
       playBtnText := label; deleteModeClass := false;
       intervals := ∅; nextIntervalId := 1 |}.

Inductive reachable (sc : Script) : State → Prop :=
  | reach_boot label height width :
      reachable sc (boot label height width)
  | reach_step s ev :
      reachable sc s → enabled ev s → reachable sc (dispatch sc ev s).

(** ** Vocabulary of the properties *)

(** A run of decimal digits. *)
Fixpoint allDigits (s : string) : Prop :=
  match s with
  | EmptyString => True
  | String c s' => is_Some (digit c) ∧ allDigits s'
  end.

(** The grids [initGrid] builds: the cell at row [i], column [j] carries the
    id [`${i}-${j}`]. *)
Definition wfGrid (g : Grid) : Prop :=
  ∀ n e, nodeAt g n = Some e →
    node_id e = cellId (Z.of_nat n.1) (Z.of_nat n.2).

(** A grid of [rows] rows that all have [cols] cells. *)
Definition hasShape (rows cols : nat) (g : Grid) : Prop :=
  length g = rows ∧ Forall (λ row, length row = cols) g.

(** The cell at a coordinate, if the coordinate is inside the grid. *)
Definition cellAt (g : Grid) (r c : Z) : option Element :=
  if decide (0 ≤ r ∧ 0 ≤ c) then nodeAt g (Z.to_nat r, Z.to_nat c) else None.

(** The state of the cell at a coordinate; outside the grid there is no
    cell and the state is dead. *)
Definition aliveAt (g : Grid) (r c : Z) : bool :=
  match cellAt g r c with
  | Some e => aliveTruthy e
  | None => false
  end.

(** The eight compass offsets. *)
Definition offsets : list (Z * Z) :=
  [(-1, -1); (-1, 0); (-1, 1); (0, 1); (1, 1); (1, 0); (1, -1); (0, -1)].

(** Number of alive cells among the up to eight neighbours of a coordinate,
    without wrap-around. *)
Definition aliveNeighborCount (g : Grid) (r c : Z) : nat :=
  length (List.filter (λ d, aliveAt g (r + d.1) (c + d.2)) offsets).

(** The rule B3/S23. *)
Definition lifeRule (alive : bool) (n : nat) : bool :=
  if alive then bool_decide (n = 2%nat ∨ n = 3%nat) else bool_decide (n = 3%nat).

(** The alive marker of a cell is the string ['true'] or is absent. *)
Definition markerOk (e : Element) : Prop :=
  data_alive e = None ∨ data_alive e = Some "true"%string.

Definition markersOk (g : Grid) : Prop :=
  ∀ n e, nodeAt g n = Some e → markerOk e.

(** At most the interval [this.state.intervalId] names is active, and
    [setInterval] has not yet handed out the handles from [nextIntervalId]
    on. *)
Definition clockOk (s : State) : Prop :=
  intervals s = match intervalId s with Some i => {[ i ]} | None => ∅ end
  ∧ ∀ i : nat, i ∈ intervals s → (i < nextIntervalId s)%nat.

(** What the steps of part_000 keep true of [seen] and the two arrays while
    they walk over a grid [g]: an entry of an array is the handle of a cell
    that has been evaluated and that the rule condemns (resp. revives) on
    [g], and every evaluated cell that the rule condemns (resp. revives) has
    its handle in the array. *)
Record checkInv (g : Grid) (st : Part000.CheckState) : Prop := mkCheckInv {
  inv_kill : ∀ x, x ∈ nodesToKill (Part000.lists st) →
    ∃ m e, x = Some m ∧ nodeAt g m = Some e ∧ node_id e ∈ Part000.seen st ∧
      aliveTruthy e = true ∧
      ¬ (aliveNeighborCount g (Z.of_nat m.1) (Z.of_nat m.2) = 2%nat
         ∨ aliveNeighborCount g (Z.of_nat m.1) (Z.of_nat m.2) = 3%nat);
  inv_resurrect : ∀ x, x ∈ nodesToResurrect (Part000.lists st) →
    ∃ m e, x = Some m ∧ nodeAt g m = Some e ∧ node_id e ∈ Part000.seen st ∧
      aliveTruthy e = false ∧
      aliveNeighborCount g (Z.of_nat m.1) (Z.of_nat m.2) = 3%nat;
  inv_seen : ∀ m e, nodeAt g m = Some e → node_id e ∈ Part000.seen st →
    (aliveTruthy e = true →
     ¬ (aliveNeighborCount g (Z.of_nat m.1) (Z.of_nat m.2) = 2%nat
        ∨ aliveNeighborCount g (Z.of_nat m.1) (Z.of_nat m.2) = 3%nat) →
     Some m ∈ nodesToKill (Part000.lists st))
    ∧ (aliveTruthy e = false →
       aliveNeighborCount g (Z.of_nat m.1) (Z.of_nat m.2) = 3%nat →
       Some m ∈ nodesToResurrect (Part000.lists st))
}.

(** A decidable form of [wfGrid]. *)
Definition wfGridb (g : Grid) : bool :=
  forallb
    (λ ne : NodeRef * Element,
       bool_decide (node_id ne.2 = cellId (Z.of_nat ne.1.1) (Z.of_nat ne.1.2)))
    (cells g).

(** ** Grids used as examples *)

(** Clicking the listed cells one after the other, last one first. *)
Definition clickAll (ns : list NodeRef) (g : Grid) : Grid :=
  foldr onmousedown g ns.

(** The grid of a 64 x 64 pixel window: three rows of three cells. *)
Definition grid3x3 : Grid := initGridDom 64 64 [].

(** The grid of a 100 x 107 pixel window: five rows of five cells. *)
Definition grid5x5 : Grid := initGridDom 107 100 [].

(** A horizontal blinker in the middle of [grid5x5]. *)
Definition blinker : Grid := clickAll [(1, 1); (1, 2); (1, 3)]%nat grid5x5.

(** A T-shaped tetromino at the top of [grid3x3]: the cell (0,1) and the
    whole row below it. The dead cell (2,1) has three alive neighbours. *)
Definition tee : Grid := clickAll [(0, 1); (1, 0); (1, 1); (1, 2)]%nat grid3x3.

(** The grid of a 33 x 22 pixel window, one row of two cells, with the
    right cell alive. *)
Definition grid1x2 : Grid := clickAll [(0, 1)]%nat (initGridDom 22 33 []).

(** The grid of a 64 x 43 pixel window, two rows of three cells, with the
    bottom row alive. *)
Definition grid2x3 : Grid :=
  clickAll [(1, 0); (1, 1); (1, 2)]%nat (initGridDom 43 64 []).

(** [grid3x3] with two opposite corners alive. *)
Definition corners : Grid := clickAll [(0, 0); (2, 2)]%nat grid3x3.

(** The two scripts of the repository. *)
Definition scripts : list Script := [gameJs; part000].

(** What every reachable DOM satisfies. *)
Definition domOk (g : Grid) : Prop := wfGrid g ∧ markersOk g.

(** The state right after [game.init()] in a 64 x 64 pixel window whose
    button reads "Start". *)
Definition booted : State := boot "Start" 64 64.

(** [booted] after a click on the play button: the clock runs. *)
Definition running (sc : Script) : State := dispatch sc PlayBtnClick booted.

(** ** [debounce] of part_000 *)

(** What the function returned by [debounce(cb, time)] works on: its
    variable [timer], and in the browser the timeouts that are set and have
    neither run nor been cleared, each with the moment it comes due, and
    the handle [setTimeout] hands out next. [cbRuns] lists the moments at
    which [cb] was called, the latest first. Moments are in milliseconds. *)
Record Debounce := mkDebounce {
  timer : option nat;
  timeouts : gmap nat Z;
  nextTimeoutId : nat;
  cbRuns : list Z
}.

(** The state right after [debounce(cb, time)]: [let timer;]. *)
Definition newDebounce : Debounce :=
  {| timer := None; timeouts := ∅; nextTimeoutId := 1; cbRuns := [] |}.

(** [clearTimeout(id)]: [clearTimeout(undefined)] and a handle that is no
    longer pending do nothing. *)
Definition clearTimeout (id : option nat) (active : gmap nat Z) : gmap nat Z :=
  match id with
  | Some i => delete i active
  | None => active
  end.

(** The returned function, called at the moment [now]. *)
Definition debounced (time now : Z) (d : Debounce) : Debounce :=
  {| timer := Some (nextTimeoutId d);
     timeouts :=
       <[ nextTimeoutId d := now + time ]> (clearTimeout (timer d) (timeouts d));
     nextTimeoutId := S (nextTimeoutId d);
     cbRuns := cbRuns d |}.

(** The browser runs a pending timeout once, not before it is due: [cb] is
    called and the timeout is gone. The variable [timer] keeps the handle. *)
Definition timeoutDue (id : nat) (now : Z) (d : Debounce) : Debounce :=
  match timeouts d !! id with
  | Some due =>
      if decide (due ≤ now) then
        {| timer := timer d; timeouts := delete id (timeouts d);
           nextTimeoutId := nextTimeoutId d; cbRuns := now :: cbRuns d |}
      else d
  | None => d
  end.

Inductive DebounceEvent :=
  | Called (now : Z)
  | TimeoutDue (id : nat) (now : Z).

Definition debounceStep (time : Z) (ev : DebounceEvent) (d : Debounce) : Debounce :=
  match ev with
  | Called now => debounced time now d
  | TimeoutDue id now => timeoutDue id now d
  end.

Definition debounceRun (time : Z) (evs : list DebounceEvent) : Debounce :=
  foldl (λ d ev, debounceStep time ev d) newDebounce evs.

(** The moments of the calls in a run, in order. *)
Definition callTimes (evs : list DebounceEvent) : list Z :=
  omap (λ ev, match ev with Called now => Some now | TimeoutDue _ _ => None end) evs.

(** ** Further examples *)

(** A ragged DOM, as no run of the program builds it: a first row of one
    cell and a second row of three. *)
Definition ragged : Grid :=
  [[newColumn 0 0]; [newColumn 1 0; newColumn 1 1; newColumn 1 2]].

(** The grid of a 64 x 43 pixel window, two rows of three cells, with the
    cells (0,0) and (1,2) alive. *)
Definition wide : Grid := clickAll [(0, 0); (1, 2)]%nat (initGridDom 43 64 []).

(** The grid of a 65 x 86 pixel window, four rows of four cells, with a
    glider in its top left corner. *)
Definition glider : Grid :=
  clickAll [(0, 1); (1, 2); (2, 0); (2, 1); (2, 2)]%nat (initGridDom 86 65 []).

(** No cell of the grid is alive. *)
Definition allDead (g : Grid) : Prop :=
  ∀ n e, nodeAt g n = Some e → aliveTruthy e = false.

(** No alive cell has an alive neighbour. *)
Definition isolated (g : Grid) : Prop :=
  ∀ r c, aliveAt g r c = true → aliveNeighborCount g r c = 0%nat.

Definition isolatedb (g : Grid) : bool :=
  forallb
    (λ ne : NodeRef * Element,
       implb (aliveTruthy ne.2)
         (bool_decide
            (aliveNeighborCount g (Z.of_nat ne.1.1) (Z.of_nat ne.1.2) = 0%nat)))
    (cells g).

(** Three alive cells of [grid5x5] that do not touch, around the dead cell
    (1,1). *)
Definition tripod : Grid := clickAll [(0, 0); (0, 2); (2, 1)]%nat grid5x5.

(** The class [grid--deleteMode] follows the drag mode: it is off when no
    gesture is active and on in delete mode. *)
Definition dragOk (s : State) : Prop :=
  (dragType s = None → deleteModeClass s = false)
  ∧ (dragType s = Some DRAG_delete → deleteModeClass s = true).

(** [booted] after three presses on the cell (0,0) with no release on the
    grid in between. *)
Definition pressedThrice (sc : Script) : State :=
  dispatch sc (MouseDown (OnCol (0, 0)%nat))
    (dispatch sc (MouseDown (OnCol (0, 0)%nat))
       (dispatch sc (MouseDown (OnCol (0, 0)%nat)) booted)).

(** The grid of a 100 x 64 pixel window: three rows of five cells. *)
Definition grid3x5 : Grid := initGridDom 64 100 [].

(** Four alive cells side by side in the bottom row of [grid3x5]. *)
Definition bottomRow : Grid :=
  clickAll [(2, 0); (2, 1); (2, 2); (2, 3)]%nat grid3x5.

(** The page in a 100 x 64 pixel window after a click on each of these four
    cells and a click on the play button. *)
Definition bottomRowRunning (sc : Script) : State :=
  foldl (λ s ev, dispatch sc ev s) (boot "Start" 64 100)
    [MouseDown (OnCol (2, 3)%nat); MouseUp; MouseDown (OnCol (2, 2)%nat); MouseUp;
     MouseDown (OnCol (2, 1)%nat); MouseUp; MouseDown (OnCol (2, 0)%nat); MouseUp;
     PlayBtnClick].

(** * Properties *)

(** ** Cell ids *)

Lemma digit_pretty_N_char x : (x < 10)%N → digit (pretty_N_char x) = Some x.
Proof.
  intros Hx. destruct x as [| p]; [reflexivity |].
  do 4 (try destruct p as [p | p |]); try reflexivity; lia.
Qed.

Lemma pretty_N_go_allDigits x s : allDigits s → allDigits (pretty_N_go x s).
Proof.
  revert s. induction (N.lt_wf_0 x) as [x _ IH]; intros s Hs.
  destruct (decide (x = 0%N)) as [-> | Hx]; [by rewrite pretty_N_go_0 |].
  rewrite pretty_N_go_step by lia. apply IH.
  - apply N.div_lt; lia.
  - split; [| done]. rewrite digit_pretty_N_char; [done |].
    apply N.mod_lt; lia.
Qed.

Lemma pretty_N_go_nonempty x s :
  (0 < x)%N → pretty_N_go x s ≠ EmptyString.
Proof.
  revert s. induction (N.lt_wf_0 x) as [x _ IH]; intros s Hx.
  rewrite pretty_N_go_step by done.
  destruct (decide (x `div` 10 = 0)%N) as [-> | Hd].
  - by rewrite pretty_N_go_0.
  - apply IH; [apply N.div_lt; lia | by apply N.neq_0_lt_0].
Qed.

Lemma digits_pretty_N_go x s : digits (pretty_N_go x s) 0 = digits s x.
Proof.
  revert s. induction (N.lt_wf_0 x) as [x _ IH]; intros s.
  destruct (decide (x = 0%N)) as [-> | Hx]; [by rewrite pretty_N_go_0 |].
  rewrite pretty_N_go_step by lia.
  rewrite IH by (apply N.div_lt; lia). simpl.
  rewrite digit_pretty_N_char by (apply N.mod_lt; lia).
  f_equal. pose proof (N.div_mod x 10). lia.
Qed.

Lemma pretty_N_shape (x : N) :
  allDigits (pretty x) ∧ pretty x ≠ EmptyString ∧ digits (pretty x) 0 = Some x.
Proof.
  unfold pretty, pretty_N. case_decide as Hx.
  - subst x. repeat split; [by eexists | done].
  - split; [by apply pretty_N_go_allDigits |].
    split; [apply pretty_N_go_nonempty; lia |].
    by rewrite digits_pretty_N_go.
Qed.

(** A decimal literal never starts like a negative one. *)
Lemma allDigits_no_dash s : ¬ allDigits (String "-" s).
Proof. intros [[? [=]] _]. Qed.

(** How [pretty] prints an integer: digits, with a dash in front when it is
    negative. *)
Lemma pretty_Z_shape (z : Z) :
  (0 ≤ z ∧ allDigits (pretty z) ∧ pretty z ≠ EmptyString
     ∧ digits (pretty z) 0 = Some (Z.to_N z))
  ∨ (z < 0 ∧ ∃ d, pretty z = String "-" d ∧ allDigits d ∧ d ≠ EmptyString).
Proof.
  destruct z as [| p | p].
  - left. repeat split; [lia | by eexists | done].
  - left. destruct (pretty_N_shape (N.pos p)) as (? & ? & ?).
    by repeat split.
  - right. split; [lia |]. exists (pretty (N.pos p)).
    destruct (pretty_N_shape (N.pos p)) as (? & ? & ?). by repeat split.
Qed.

Lemma Number_digits s :
  allDigits s → s ≠ EmptyString → Number (Some s) = Z.of_N <$> digits s 0.
Proof.
  destruct s as [| c s]; [done |]. intros Hs _. cbn [Number].
  case_decide as Hc; [| done]. subst c. by edestruct allDigits_no_dash.
Qed.

Lemma Number_pretty (z : Z) : 0 ≤ z → Number (Some (pretty z)) = Some z.
Proof.
  intros Hz. destruct (pretty_Z_shape z) as [(_ & Hd & Hne & Hv) | [? _]]; [| lia].
  rewrite Number_digits, Hv by done. simpl. f_equal. lia.
Qed.

Lemma append_empty (s : string) : EmptyString +:+ s = s.
Proof. reflexivity. Qed.

Lemma append_String c (a b : string) : String c a +:+ b = String c (a +:+ b).
Proof. reflexivity. Qed.

Lemma split_allDigits s : allDigits s → split "-" s = [s].
Proof.
  induction s as [| c s IH]; [done |]. intros [Hc Hs]. cbn [split].
  case_decide as Hd; [subst c; by destruct Hc |]. by rewrite IH.
Qed.

Lemma split_app_dash a b :
  allDigits a → split "-" (a +:+ String "-" b) = a :: split "-" b.
Proof.
  induction a as [| c a IH]; intros Ha;
    rewrite ?append_empty, ?append_String; cbn [split].
  - by rewrite decide_True.
  - destruct Ha as [Hc Ha]. case_decide as Hd; [subst c; by destruct Hc |].
    by rewrite IH.
Qed.

(** [node.id.split('-')] gives back the two numbers of the id of a cell. *)
Lemma split_cellId (r c : Z) :
  0 ≤ r → 0 ≤ c → split "-" (cellId r c) = [pretty r; pretty c].
Proof.
  intros Hr Hc. unfold cellId, cellIdNum, showNum.
  destruct (pretty_Z_shape r) as [(_ & Hdr & _) | [? _]]; [| lia].
  destruct (pretty_Z_shape c) as [(_ & Hdc & _) | [? _]]; [| lia].
  change ("-" +:+ pretty c) with (String "-" (pretty c)).
  by rewrite split_app_dash, split_allDigits.
Qed.

Lemma app_dash_inj a a' b b' :
  allDigits a → allDigits a' →
  a +:+ String "-" b = a' +:+ String "-" b' → a = a' ∧ b = b'.
Proof.
  revert a'. induction a as [| c a IH]; intros [| c' a'] Ha Ha';
    rewrite ?append_empty, ?append_String.
  - by intros [= ->].
  - intros [= <- _]. by edestruct allDigits_no_dash.
  - intros [= -> _]. by edestruct allDigits_no_dash.
  - intros [= -> Heq]. destruct Ha as [_ Ha], Ha' as [_ Ha'].
    destruct (IH a' Ha Ha' Heq) as [-> ->]. done.
Qed.

(** Different coordinates have different ids. *)
Lemma cellId_inj (r c r' c' : Z) :
  cellId r c = cellId r' c' → r = r' ∧ c = c'.
Proof.
  unfold cellId, cellIdNum, showNum.
  change ("-" +:+ pretty c) with (String "-" (pretty c)).
  change ("-" +:+ pretty c') with (String "-" (pretty c')).
  intros Heq.
  assert (pretty r = pretty r' ∧ pretty c = pretty c') as [Hr Hc].
  { destruct (pretty_Z_shape r) as [(_ & Hd & Hne & _) | (_ & d & Hp & Hd & Hne)],
      (pretty_Z_shape r') as [(_ & Hd' & Hne' & _) | (_ & d' & Hp' & Hd' & Hne')].
    - by apply app_dash_inj.
    - rewrite Hp' in Heq. destruct (pretty r) as [| x p]; [done |].
      simpl in Heq. injection Heq as -> _. by edestruct allDigits_no_dash.
    - rewrite Hp in Heq. destruct (pretty r') as [| x p]; [done |].
      simpl in Heq. injection Heq as <- _. by edestruct allDigits_no_dash.
    - rewrite Hp, Hp' in Heq |- *. simpl in Heq. injection Heq as Heq.
      apply app_dash_inj in Heq as [-> ->]; done. }
  split; by apply (inj pretty).
Qed.

(** ** Nodes, handles and ids *)

Lemma elem_of_cells (g : Grid) n e : (n, e) ∈ cells g ↔ nodeAt g n = Some e.
Proof.
  unfold cells, nodeAt. rewrite list_elem_of_join. split.
  - intros (l & Hin & (i & row & -> & Hrow)%elem_of_lookup_imap).
    apply elem_of_lookup_imap in Hin as (j & e' & [= -> ->] & He).
    simpl. by rewrite Hrow.
  - destruct n as [i j]. simpl. destruct (g !! i) as [row |] eqn:Hrow; [| done].
    intros He. exists (imap (λ j e, ((i, j), e)) row). split.
    + by apply (elem_of_lookup_imap_2 (λ j e, ((i, j), e))).
    + by apply (elem_of_lookup_imap_2
                  (λ i (row : list Element), imap (λ j e, ((i, j), e)) row)).
Qed.

Lemma getElementById_Some (g : Grid) s n :
  getElementById g s = Some n → ∃ e, nodeAt g n = Some e ∧ node_id e = s.
Proof.
  unfold getElementById. intros ([i [n' e]] & Hf & ->)%fmap_Some.
  apply list_find_Some in Hf as (Hl & Hid & _). exists e. split; [| done].
  apply elem_of_cells. by eapply list_elem_of_lookup_2.
Qed.

Lemma getElementById_None (g : Grid) s n e :
  getElementById g s = None → nodeAt g n = Some e → node_id e ≠ s.
Proof.
  unfold getElementById. intros Hf%fmap_None He Hid.
  rewrite list_find_None, Forall_forall in Hf.
  apply elem_of_cells in He. by apply (Hf _ He).
Qed.

(** On a well-formed grid [getNode] is the lookup by position. *)
Lemma getNode_wf (g : Grid) r c :
  wfGrid g →
  getNode g r c = (λ _, (Z.to_nat r, Z.to_nat c)) <$> cellAt g r c.
Proof.
  intros Hwf. unfold getNode, getNodeNum. fold (cellId r c).
  destruct (getElementById g (cellId r c)) as [n |] eqn:Hg.
  - apply getElementById_Some in Hg as (e & He & Hid).
    rewrite (Hwf _ _ He) in Hid. apply cellId_inj in Hid as [<- <-].
    unfold cellAt. rewrite decide_True by lia. rewrite !Nat2Z.id.
    destruct n. simpl in *. by rewrite He.
  - unfold cellAt. case_decide as Hrc; [| done].
    destruct (nodeAt g _) as [e |] eqn:He; [| done]. exfalso.
    eapply getElementById_None; [done.. |].
    rewrite (Hwf _ _ He). simpl. by rewrite !Z2Nat.id by lia.
Qed.

Lemma getIsNodeAlive_getNode (g : Grid) r c :
  wfGrid g → getIsNodeAlive g (getNode g r c) = aliveAt g r c.
Proof.
  intros Hwf. rewrite getNode_wf by done. unfold aliveAt, cellAt.
  case_decide; [| done].
  destruct (nodeAt g _) as [e |] eqn:He; [| done]. simpl. by rewrite He.
Qed.

Lemma neighbors_offsets (g : Grid) r c :
  neighbors g r c = (λ d, getNode g (r + d.1) (c + d.2)) <$> offsets.
Proof.
  unfold neighbors, neighborsNum, offsets, getNode, numSub, numAdd. simpl.
  repeat (f_equal; try lia).
Qed.

Lemma filter_fmap_length {A B} (f : B → bool) (h : A → B) (l : list A) :
  length (List.filter f (h <$> l)) = length (List.filter (λ x, f (h x)) l).
Proof.
  induction l as [| x l IH]; [done |]. csimpl.
  destruct (f (h x)); csimpl; by rewrite IH.
Qed.

(** The neighbours the code counts are the neighbours of the coordinate. *)
Lemma aliveNeighbors_wf (g : Grid) r c :
  wfGrid g →
  length (List.filter (getIsNodeAlive g) (neighbors g r c))
  = aliveNeighborCount g r c.
Proof.
  intros Hwf. rewrite neighbors_offsets, filter_fmap_length.
  unfold aliveNeighborCount. f_equal. apply List.filter_ext.
  intros d. by apply getIsNodeAlive_getNode.
Qed.

(** ** Writing one node *)

Lemma nodeAt_updateNode f n m (g : Grid) :
  nodeAt (updateNode f n g) m
  = if decide (m = n) then f <$> nodeAt g n else nodeAt g m.
Proof.
  unfold nodeAt, updateNode. destruct n as [i j], m as [i' j']. simpl.
  destruct (decide (i = i')) as [<- | Hi].
  - rewrite list_lookup_alter_eq. destruct (g !! i) as [row |]; simpl.
    + destruct (decide (j = j')) as [<- | Hj].
      * by rewrite list_lookup_alter_eq, decide_True.
      * rewrite list_lookup_alter_ne by done. rewrite decide_False; congruence.
    + by case_decide.
  - rewrite list_lookup_alter_ne by done. rewrite decide_False; congruence.
Qed.

Lemma nodeAt_foldl_update v (ns : list NodeRef) (g : Grid) m :
  nodeAt (foldl (λ g' n, updateNode (withAlive v) n g') g ns) m
  = if decide (m ∈ ns) then withAlive v <$> nodeAt g m else nodeAt g m.
Proof.
  revert g. induction ns as [| n ns IH]; intros g; cbn [foldl].
  - rewrite decide_False; [done | apply not_elem_of_nil].
  - rewrite IH, !nodeAt_updateNode.
    destruct (decide (m = n)) as [-> | Hne].
    + rewrite (decide_True (P := n ∈ n :: ns)) by left.
      case_decide; [| done]. by destruct (nodeAt g n).
    + destruct (decide (m ∈ ns)) as [Htl | Htl].
      * rewrite decide_True; [done | by right].
      * rewrite decide_False; [done |]. by intros [? | ?]%elem_of_cons.
Qed.

(** [forOf] runs to the end exactly when no entry is [null]. *)
Lemma forOf_Normal write (nodes : list (option NodeRef)) (g : Grid) :
  None ∉ nodes →
  forOf write nodes g
  = Normal (foldl (λ g' n, write n g') g (omap (λ n, n) nodes)).
Proof.
  revert g. induction nodes as [| [n |] nodes IH]; intros g Hn; simpl.
  - done.
  - apply IH. intros ?. apply Hn. by right.
  - destruct Hn. left.
Qed.

Lemma forOf_Throw write (nodes : list (option NodeRef)) (g : Grid) :
  None ∈ nodes → ∃ g', forOf write nodes g = Throw TypeError g'.
Proof.
  revert g. induction nodes as [| [n |] nodes IH]; intros g Hn; simpl.
  - by apply elem_of_nil in Hn.
  - apply IH. by apply elem_of_cons in Hn as [? | ?].
  - by eexists.
Qed.

Lemma elem_of_omap_id (nodes : list (option NodeRef)) n :
  n ∈ omap (λ n, n) nodes ↔ Some n ∈ nodes.
Proof.
  rewrite list_elem_of_omap. split.
  - by intros (x & Hx & ->).
  - intros Hn. by exists (Some n). Qed.

(** The DOM after the two loops that end [render], when no entry of the
    lists is [null]. *)
Lemma applyLists_nodeAt (l : Lists) (g g' : Grid) m :
  applyLists l g = Normal g' →
  nodeAt g' m
  = if decide (Some m ∈ nodesToResurrect l)
    then withAlive (Some "true"%string) <$> nodeAt g m
    else if decide (Some m ∈ nodesToKill l) then withAlive None <$> nodeAt g m
    else nodeAt g m.
Proof.
  unfold applyLists.
  destruct (decide (None ∈ nodesToKill l)) as [Hk | Hk].
  { apply (forOf_Throw removeAlive _ g) in Hk as [? ->]. done. }
  rewrite (forOf_Normal _ _ _ Hk).
  destruct (decide (None ∈ nodesToResurrect l)) as [Hr | Hr].
  { eapply forOf_Throw in Hr as [? ->]. done. }
  rewrite (forOf_Normal _ _ _ Hr). intros [= <-].
  unfold setAliveTrue, removeAlive. rewrite !nodeAt_foldl_update.
  repeat case_decide; rewrite ?elem_of_omap_id in *; try done.
  by destruct (nodeAt g m).
Qed.

Lemma applyLists_Normal (l : Lists) (g : Grid) :
  None ∉ nodesToKill l → None ∉ nodesToResurrect l →
  ∃ g', applyLists l g = Normal g'.
Proof.
  intros Hk Hr. unfold applyLists.
  rewrite (forOf_Normal _ _ _ Hk), (forOf_Normal _ _ _ Hr). by eexists.
Qed.

(** ** The full scan of game.js *)

Lemma elem_of_if_singleton {A} (b : bool) (x y : A) :
  x ∈ (if b then [y] else []) ↔ b = true ∧ x = y.
Proof.
  destruct b; rewrite ?list_elem_of_singleton, ?elem_of_nil; naive_solver.
Qed.

(** What one pass through the loop body adds to the two arrays. *)
Lemma visit_lists (g : Grid) r c (l : Lists) :
  let node := getNode g r c in
  let n := length (List.filter (getIsNodeAlive g) (neighbors g r c)) in
  nodesToKill (GameJs.visit g r c l)
  = nodesToKill l ++
      (if getIsNodeAlive g node && negb (bool_decide (n = 2%nat ∨ n = 3%nat))
       then [node] else [])
  ∧ nodesToResurrect (GameJs.visit g r c l)
  = nodesToResurrect l ++
      (if negb (getIsNodeAlive g node) && bool_decide (n = 3%nat)
       then [node] else []).
Proof.
  intros node n. unfold GameJs.visit. fold node. fold n.
  destruct (getIsNodeAlive g node); repeat case_decide;
    rewrite ?bool_decide_true, ?bool_decide_false by done;
    simpl; by rewrite ?app_nil_r.
Qed.

Lemma foldl_visit_lists (g : Grid) coords (l : Lists) :
  nodesToKill (foldl (λ l rc, GameJs.visit g rc.1 rc.2 l) l coords)
  = nodesToKill l ++
      (rc ← coords;
       let n := length (List.filter (getIsNodeAlive g) (neighbors g rc.1 rc.2)) in
       if getIsNodeAlive g (getNode g rc.1 rc.2)
          && negb (bool_decide (n = 2%nat ∨ n = 3%nat))
       then [getNode g rc.1 rc.2] else [])
  ∧ nodesToResurrect (foldl (λ l rc, GameJs.visit g rc.1 rc.2 l) l coords)
  = nodesToResurrect l ++
      (rc ← coords;
       let n := length (List.filter (getIsNodeAlive g) (neighbors g rc.1 rc.2)) in
       if negb (getIsNodeAlive g (getNode g rc.1 rc.2)) && bool_decide (n = 3%nat)
       then [getNode g rc.1 rc.2] else []).
Proof.
  revert l. induction coords as [| rc coords IH]; intros l; cbn [foldl].
  - by rewrite !app_nil_r.
  - destruct (IH (GameJs.visit g rc.1 rc.2 l)) as [-> ->].
    destruct (visit_lists g rc.1 rc.2 l) as [-> ->].
    by rewrite !bind_cons, !app_assoc.
Qed.

Lemma foldl_visit_kill (g : Grid) coords (l : Lists) x :
  x ∈ nodesToKill (foldl (λ l rc, GameJs.visit g rc.1 rc.2 l) l coords) ↔
  x ∈ nodesToKill l ∨
  ∃ rc, rc ∈ coords ∧ x = getNode g rc.1 rc.2 ∧ getIsNodeAlive g x = true ∧
    ¬ (length (List.filter (getIsNodeAlive g) (neighbors g rc.1 rc.2)) = 2%nat
       ∨ length (List.filter (getIsNodeAlive g) (neighbors g rc.1 rc.2)) = 3%nat).
Proof.
  destruct (foldl_visit_lists g coords l) as [-> _].
  rewrite elem_of_app, list_elem_of_bind.
  apply or_iff_compat_l. split.
  - intros (rc & Hx & Hin). exists rc. cbv zeta in Hx.
    apply elem_of_if_singleton in Hx as [Hb ->].
    apply andb_true_iff in Hb as [Ha Hn]. apply negb_true_iff in Hn.
    apply bool_decide_eq_false in Hn. done.
  - intros (rc & Hin & -> & Ha & Hn). exists rc. split; [| done]. cbv zeta.
    apply elem_of_if_singleton. split; [| done].
    rewrite Ha. simpl. apply negb_true_iff. by apply bool_decide_eq_false.
Qed.

Lemma foldl_visit_resurrect (g : Grid) coords (l : Lists) x :
  x ∈ nodesToResurrect (foldl (λ l rc, GameJs.visit g rc.1 rc.2 l) l coords) ↔
  x ∈ nodesToResurrect l ∨
  ∃ rc, rc ∈ coords ∧ x = getNode g rc.1 rc.2 ∧ getIsNodeAlive g x = false ∧
    length (List.filter (getIsNodeAlive g) (neighbors g rc.1 rc.2)) = 3%nat.
Proof.
  destruct (foldl_visit_lists g coords l) as [_ ->].
  rewrite elem_of_app, list_elem_of_bind.
  apply or_iff_compat_l. split.
  - intros (rc & Hx & Hin). exists rc. cbv zeta in Hx.
    apply elem_of_if_singleton in Hx as [Hb ->].
    apply andb_true_iff in Hb as [Ha Hn]. apply negb_true_iff in Ha.
    apply bool_decide_eq_true in Hn. done.
  - intros (rc & Hin & -> & Ha & Hn). exists rc. split; [| done]. cbv zeta.
    apply elem_of_if_singleton. split; [| done].
    rewrite Ha. simpl. by apply bool_decide_eq_true.
Qed.
Lemma cellAt_Some_nonneg (g : Grid) r c e :
  cellAt g r c = Some e → 0 ≤ r ∧ 0 ≤ c ∧ nodeAt g (Z.to_nat r, Z.to_nat c) = Some e.
Proof. unfold cellAt. case_decide; [naive_solver | done]. Qed.

Lemma getNode_wf_Some (g : Grid) r c e :
  wfGrid g → cellAt g r c = Some e → getNode g r c = Some (Z.to_nat r, Z.to_nat c).
Proof. intros Hwf He. by rewrite getNode_wf, He. Qed.

(** On a well-formed grid a node is reached from one coordinate only. *)
Lemma getNode_wf_inv (g : Grid) r c r' c' e :
  wfGrid g → cellAt g r c = Some e →
  getNode g r' c' = Some (Z.to_nat r, Z.to_nat c) → r' = r ∧ c' = c.
Proof.
  intros Hwf He. rewrite getNode_wf by done.
  intros (e' & He' & [= Hr Hc])%fmap_Some.
  apply cellAt_Some_nonneg in He as (? & ? & _).
  apply cellAt_Some_nonneg in He' as (? & ? & _). lia.
Qed.

Lemma collect_kill_wf (g : Grid) r c e :
  wfGrid g → cellAt g r c = Some e →
  Some (Z.to_nat r, Z.to_nat c) ∈ nodesToKill (GameJs.collect g) ↔
  (r, c) ∈ GameJs.scanned g ∧ aliveAt g r c = true ∧
  ¬ (aliveNeighborCount g r c = 2%nat ∨ aliveNeighborCount g r c = 3%nat).
Proof.
  intros Hwf He. unfold GameJs.collect. rewrite foldl_visit_kill. cbn [nodesToKill].
  rewrite elem_of_nil. split.
  - intros [[] | ([r' c'] & Hin & Hnode & Ha & Hn)]. cbn [fst snd] in *.
    symmetry in Hnode. destruct (getNode_wf_inv _ _ _ _ _ _ Hwf He Hnode) as [-> ->].
    rewrite <- Hnode, getIsNodeAlive_getNode in Ha by done.
    rewrite aliveNeighbors_wf in Hn by done. done.
  - intros (Hin & Ha & Hn). right. exists (r, c). cbn [fst snd].
    rewrite aliveNeighbors_wf by done.
    rewrite <- (getNode_wf_Some g r c e) by done.
    by rewrite getIsNodeAlive_getNode.
Qed.

Lemma collect_resurrect_wf (g : Grid) r c e :
  wfGrid g → cellAt g r c = Some e →
  Some (Z.to_nat r, Z.to_nat c) ∈ nodesToResurrect (GameJs.collect g) ↔
  (r, c) ∈ GameJs.scanned g ∧ aliveAt g r c = false ∧
  aliveNeighborCount g r c = 3%nat.
Proof.
  intros Hwf He. unfold GameJs.collect. rewrite foldl_visit_resurrect. cbn [nodesToResurrect].
  rewrite elem_of_nil. split.
  - intros [[] | ([r' c'] & Hin & Hnode & Ha & Hn)]. cbn [fst snd] in *.
    symmetry in Hnode. destruct (getNode_wf_inv _ _ _ _ _ _ Hwf He Hnode) as [-> ->].
    rewrite <- Hnode, getIsNodeAlive_getNode in Ha by done.
    rewrite aliveNeighbors_wf in Hn by done. done.
  - intros (Hin & Ha & Hn). right. exists (r, c). cbn [fst snd].
    rewrite aliveNeighbors_wf by done.
    rewrite <- (getNode_wf_Some g r c e) by done.
    by rewrite getIsNodeAlive_getNode.
Qed.

(** The state of a cell after the two loops that end [render], from
    whether its handle is in the arrays. *)
Lemma applyLists_aliveAt (l : Lists) (g g' : Grid) r c e :
  applyLists l g = Normal g' → cellAt g r c = Some e →
  aliveAt g' r c
  = if decide (Some (Z.to_nat r, Z.to_nat c) ∈ nodesToResurrect l) then true
    else if decide (Some (Z.to_nat r, Z.to_nat c) ∈ nodesToKill l) then false
    else aliveAt g r c.
Proof.
  intros Happ He. unfold aliveAt. rewrite He.
  apply cellAt_Some_nonneg in He as (Hr & Hc & He).
  unfold cellAt. rewrite decide_True by done.
  rewrite (applyLists_nodeAt _ _ _ _ Happ), He.
  by repeat case_decide.
Qed.

Lemma lifeRule_cases (alive : bool) (n : nat) :
  lifeRule alive n
  = if decide (alive = false ∧ n = 3%nat) then true
    else if decide (alive = true ∧ ¬ (n = 2%nat ∨ n = 3%nat)) then false
    else alive.
Proof.
  unfold lifeRule. destruct alive; repeat case_decide;
    try case_bool_decide; naive_solver.
Qed.

(** game.js: a scanned cell follows the rule on the snapshot, every other
    cell keeps its state. *)
Lemma GameJs_render_cell (g g' : Grid) r c e :
  wfGrid g → GameJs.render g = Normal g' → cellAt g r c = Some e →
  aliveAt g' r c
  = if decide ((r, c) ∈ GameJs.scanned g)
    then lifeRule (aliveAt g r c) (aliveNeighborCount g r c)
    else aliveAt g r c.
Proof.
  intros Hwf Hr He. unfold GameJs.render in Hr.
  destruct g as [| row0 g0]; [done |].
  rewrite (applyLists_aliveAt _ _ _ _ _ _ Hr He), lifeRule_cases.
  pose proof (collect_kill_wf _ _ _ _ Hwf He) as Hk.
  pose proof (collect_resurrect_wf _ _ _ _ Hwf He) as Hres.
  repeat case_decide; try done; naive_solver.
Qed.

(** ** The walk of part_000 *)

Lemma filter_omap_alive (g : Grid) (l : list (option NodeRef)) :
  length (List.filter (λ n, getIsNodeAlive g (Some n)) (omap (λ n : option NodeRef, n) l))
  = length (List.filter (getIsNodeAlive g) l).
Proof.
  assert (Hnull : getIsNodeAlive g None = false) by done.
  revert Hnull. generalize (getIsNodeAlive g). intros f Hnull.
  induction l as [| [n |] l IH]; csimpl; rewrite ?Hnull; [done | | done].
  destruct (f (Some n)); csimpl; by rewrite IH.
Qed.

(** [check] reads the coordinates of a cell back from its id. *)
Lemma check_coords (g : Grid) m e :
  wfGrid g → nodeAt g m = Some e →
  Part000.idOf g m = cellId (Z.of_nat m.1) (Z.of_nat m.2)
  ∧ Number (split "-" (Part000.idOf g m) !! 0%nat) = Some (Z.of_nat m.1)
  ∧ Number (split "-" (Part000.idOf g m) !! 1%nat) = Some (Z.of_nat m.2).
Proof.
  intros Hwf He. unfold Part000.idOf. rewrite He, (Hwf _ _ He).
  rewrite split_cellId by lia. cbn [lookup list_lookup].
  by rewrite !Number_pretty by lia.
Qed.

(** [check] in closed form, for a node whose id has not been seen. *)
Lemma checkWith_fresh (g : Grid)
    (inner : NodeRef → Part000.CheckState → Part000.CheckState)
    (node : NodeRef) (recurse : bool) (st : Part000.CheckState) :
  Part000.idOf g node ∉ Part000.seen st →
  let ids := split "-" (Part000.idOf g node) in
  let nb := omap (λ n : option NodeRef, n)
              (neighborsNum g (Number (ids !! 0%nat)) (Number (ids !! 1%nat))) in
  let st1 := if recurse then foldl (λ st cell, inner cell st) st nb else st in
  let alive := getIsNodeAlive g (Some node) in
  let n := length (List.filter (λ n, getIsNodeAlive g (Some n)) nb) in
  let st' := Part000.checkWith g inner node recurse st in
  Part000.seen st' = {[ Part000.idOf g node ]} ∪ Part000.seen st1
  ∧ nodesToKill (Part000.lists st')
    = nodesToKill (Part000.lists st1) ++
        (if alive && negb (bool_decide (n = 2%nat ∨ n = 3%nat))
         then [Some node] else [])
  ∧ nodesToResurrect (Part000.lists st')
    = nodesToResurrect (Part000.lists st1) ++
        (if negb alive && bool_decide (n = 3%nat) then [Some node] else []).
Proof.
  intros Hfresh ids nb st1 alive n st'. subst st'. unfold Part000.checkWith.
  rewrite decide_False by done. fold ids. fold nb. fold st1. fold alive. fold n.
  destruct alive; repeat case_decide;
    rewrite ?bool_decide_true, ?bool_decide_false by done;
    cbn [Part000.seen Part000.lists pushKill pushResurrect nodesToKill
         nodesToResurrect andb negb];
    by rewrite ?app_nil_r.
Qed.

Lemma foldl_inv {A S} (P : S → Prop) (Q : A → Prop) (f : S → A → S)
    (l : list A) (s : S) :
  (∀ s x, Q x → P s → P (f s x)) → Forall Q l → P s → P (foldl f s l).
Proof.
  intros Hf Hl. revert s. induction Hl as [| x l Hx Hl IH]; intros s Hs; [done |].
  cbn [foldl]. apply IH. by apply Hf.
Qed.

Lemma neighborsArr_valid (g : Grid) r c :
  Forall (λ n, is_Some (nodeAt g n)) (omap (λ n : option NodeRef, n) (neighborsNum g r c)).
Proof.
  apply Forall_forall. intros n Hn. apply elem_of_omap_id in Hn.
  unfold neighborsNum in Hn.
  repeat (apply elem_of_cons in Hn as [Hn | Hn];
          [symmetry in Hn; apply getElementById_Some in Hn as (e & -> & _);
           by eexists |]).
  by apply elem_of_nil in Hn.
Qed.

Lemma checkWith_inv (g : Grid)
    (inner : NodeRef → Part000.CheckState → Part000.CheckState)
    (node : NodeRef) (recurse : bool) (st : Part000.CheckState) :
  wfGrid g →
  (∀ cell st, is_Some (nodeAt g cell) → checkInv g st → checkInv g (inner cell st)) →
  is_Some (nodeAt g node) → checkInv g st →
  checkInv g (Part000.checkWith g inner node recurse st).
Proof.
  intros Hwf Hinner [e He] Hst.
  destruct (decide (Part000.idOf g node ∈ Part000.seen st)) as [Hseen | Hfresh].
  { unfold Part000.checkWith. by rewrite decide_True. }
  destruct (checkWith_fresh g inner node recurse st Hfresh) as (Hs & Hk & Hr).
  destruct (check_coords g node e Hwf He) as (Hid & Hrow & Hcol).
  rewrite Hrow, Hcol in Hs, Hk, Hr.
  set (st1 := if recurse
              then foldl (λ st cell, inner cell st) st
                     (omap (λ n : option NodeRef, n)
                        (neighborsNum g (Some (Z.of_nat node.1))
                           (Some (Z.of_nat node.2))))
              else st) in *.
  rewrite filter_omap_alive in Hk, Hr.
  fold (neighbors g (Z.of_nat node.1) (Z.of_nat node.2)) in Hk, Hr.
  rewrite aliveNeighbors_wf in Hk, Hr by done.
  assert (Hal : getIsNodeAlive g (Some node) = aliveTruthy e).
  { unfold getIsNodeAlive. by rewrite He. }
  rewrite Hal in Hk, Hr.
  assert (Hide : Part000.idOf g node = node_id e).
  { unfold Part000.idOf. by rewrite He. }
  assert (Hst1 : checkInv g st1).
  { subst st1. destruct recurse; [| done].
    eapply (foldl_inv (checkInv g) (λ n, is_Some (nodeAt g n)));
      [| apply neighborsArr_valid | done].
    intros s x Hx Hs'. by apply Hinner. }
  destruct Hst1 as [Hik Hir His]. split.
  - intros x. rewrite Hk, elem_of_app, elem_of_if_singleton, Hs.
    intros [Hx | [Hb ->]].
    + destruct (Hik x Hx) as (m & e' & ? & ? & ? & ? & ?).
      exists m, e'. split_and!; try done. set_solver.
    + apply andb_true_iff in Hb as [Ha Hn]. apply negb_true_iff in Hn.
      apply bool_decide_eq_false in Hn.
      exists node, e. split_and!; try done. set_solver.
  - intros x. rewrite Hr, elem_of_app, elem_of_if_singleton, Hs.
    intros [Hx | [Hb ->]].
    + destruct (Hir x Hx) as (m & e' & ? & ? & ? & ? & ?).
      exists m, e'. split_and!; try done. set_solver.
    + apply andb_true_iff in Hb as [Ha Hn]. apply negb_true_iff in Ha.
      apply bool_decide_eq_true in Hn.
      exists node, e. split_and!; try done. set_solver.
  - intros m e' He'. rewrite Hs, Hk, Hr, !elem_of_app, !elem_of_if_singleton.
    rewrite elem_of_union, elem_of_singleton. intros [Hnew | Hold].
    + assert (m = node) as ->.
      { rewrite Hide, (Hwf _ _ He), (Hwf _ _ He') in Hnew.
        apply cellId_inj in Hnew as [? ?]. destruct m, node. simpl in *.
        f_equal; lia. }
      assert (e' = e) as -> by congruence.
      split.
      * intros Ha Hn. right. split; [| done]. rewrite Ha. simpl.
        apply negb_true_iff. by apply bool_decide_eq_false.
      * intros Ha Hn. right. split; [| done]. rewrite Ha. simpl.
        by apply bool_decide_eq_true.
    + destruct (His m e' He' Hold) as [Hk' Hr']. split; intros; left; eauto.
Qed.

Lemma checkCell_inv (g : Grid) cell st :
  wfGrid g → is_Some (nodeAt g cell) → checkInv g st →
  checkInv g (Part000.checkCell g cell st).
Proof. intros. by apply checkWith_inv. Qed.

Lemma check_inv (g : Grid) node recurse st :
  wfGrid g → is_Some (nodeAt g node) → checkInv g st →
  checkInv g (Part000.check g node recurse st).
Proof.
  intros. apply checkWith_inv; try done. intros. by apply checkCell_inv.
Qed.

Lemma querySelectorAllAlive_valid (g : Grid) :
  Forall (λ n, is_Some (nodeAt g n)) (Part000.querySelectorAllAlive g).
Proof.
  apply Forall_forall. intros n Hn. unfold Part000.querySelectorAllAlive in Hn.
  apply list_elem_of_fmap in Hn as ([n' e] & -> & Hin).
  apply list_elem_of_In, List.filter_In in Hin as [Hin _].
  apply list_elem_of_In, elem_of_cells in Hin. by eexists.
Qed.

Lemma collect_inv (g : Grid) : wfGrid g → checkInv g (Part000.collect g).
Proof.
  intros Hwf. unfold Part000.collect.
  eapply (foldl_inv (checkInv g) (λ n, is_Some (nodeAt g n)));
    [| apply querySelectorAllAlive_valid |].
  - intros s x Hx Hs. by apply check_inv.
  - split; cbn [Part000.lists Part000.seen nodesToKill nodesToResurrect].
    + by intros x ?%elem_of_nil.
    + by intros x ?%elem_of_nil.
    + intros m e _ Hin. set_solver.
Qed.

(** The arrays of part_000 never hold [null]: only nodes that exist are
    pushed. This needs no assumption on the grid. *)
Lemma checkWith_no_null (g : Grid)
    (inner : NodeRef → Part000.CheckState → Part000.CheckState)
    (node : NodeRef) (recurse : bool) (st : Part000.CheckState) :
  let P := λ st, (None ∉ nodesToKill (Part000.lists st))
                 ∧ (None ∉ nodesToResurrect (Part000.lists st)) in
  (∀ cell st, P st → P (inner cell st)) → P st →
  P (Part000.checkWith g inner node recurse st).
Proof.
  intros P Hinner Hst.
  destruct (decide (Part000.idOf g node ∈ Part000.seen st)) as [Hseen | Hfresh].
  { unfold Part000.checkWith. by rewrite decide_True. }
  destruct (checkWith_fresh g inner node recurse st Hfresh) as (_ & Hk & Hr).
  cbv zeta in Hk, Hr. unfold P. rewrite Hk, Hr.
  rewrite !elem_of_app, !elem_of_if_singleton.
  assert (P (if recurse
             then foldl (λ st cell, inner cell st) st
                    (omap (λ n : option NodeRef, n)
                       (neighborsNum g
                          (Number (split "-" (Part000.idOf g node) !! 0%nat))
                          (Number (split "-" (Part000.idOf g node) !! 1%nat))))
             else st)) as [Hk1 Hr1].
  { destruct recurse; [| done].
    apply (foldl_inv P (λ _, True)); [| by apply Forall_true | done].
    intros s x _ Hs. by apply Hinner. }
  split; intros [? | [_ [=]]]; done.
Qed.

Lemma collect_no_null (g : Grid) :
  (None ∉ nodesToKill (Part000.lists (Part000.collect g)))
  ∧ (None ∉ nodesToResurrect (Part000.lists (Part000.collect g))).
Proof.
  unfold Part000.collect.
  apply (foldl_inv
           (λ st, (None ∉ nodesToKill (Part000.lists st))
                  ∧ (None ∉ nodesToResurrect (Part000.lists st)))
           (λ _, True)); [| by apply Forall_true |].
  - intros s x _ Hs. unfold Part000.check.
    apply (checkWith_no_null g (Part000.checkCell g) x true s); [| done].
    intros cell st' Hst'. unfold Part000.checkCell.
    by apply (checkWith_no_null g (λ _ st'', st'') cell false st').
  - split; cbn [Part000.lists nodesToKill nodesToResurrect]; apply not_elem_of_nil.
Qed.

(** The step of part_000 always runs to its end. *)
Lemma Part000_render_Normal (g : Grid) : ∃ g', Part000.render g = Normal g'.
Proof.
  destruct (collect_no_null g) as [Hk Hr]. by apply applyLists_Normal.
Qed.

(** part_000: a cell whose id is in [seen] follows the rule on the snapshot,
    every other cell keeps its state. *)
Lemma Part000_render_cell (g g' : Grid) r c e :
  wfGrid g → Part000.render g = Normal g' → cellAt g r c = Some e →
  aliveAt g' r c
  = if decide (cellId r c ∈ Part000.seen (Part000.collect g))
    then lifeRule (aliveAt g r c) (aliveNeighborCount g r c)
    else aliveAt g r c.
Proof.
  intros Hwf Hr He. unfold Part000.render in Hr.
  rewrite (applyLists_aliveAt _ _ _ _ _ _ Hr He), lifeRule_cases.
  destruct (collect_inv g Hwf) as [Hik Hir His].
  assert (Ha : aliveAt g r c = aliveTruthy e) by (unfold aliveAt; by rewrite He).
  apply cellAt_Some_nonneg in He as (Hr0 & Hc0 & He).
  pose proof (Hwf _ _ He) as Hid. cbn [fst snd] in Hid.
  rewrite !Z2Nat.id in Hid by done.
  specialize (His _ _ He). rewrite Hid in His. cbn [fst snd] in His.
  rewrite !Z2Nat.id in His by done. rewrite Ha.
  assert (Hres : Some (Z.to_nat r, Z.to_nat c)
                   ∈ nodesToResurrect (Part000.lists (Part000.collect g)) →
                 cellId r c ∈ Part000.seen (Part000.collect g)
                 ∧ aliveTruthy e = false ∧ aliveNeighborCount g r c = 3%nat).
  { intros (m & e' & [= <-] & He' & Hs & Hd & Hn)%Hir.
    rewrite He in He'. injection He' as <-. rewrite Hid in Hs.
    cbn [fst snd] in Hn. by rewrite !Z2Nat.id in Hn by done. }
  assert (Hkill : Some (Z.to_nat r, Z.to_nat c)
                   ∈ nodesToKill (Part000.lists (Part000.collect g)) →
                 cellId r c ∈ Part000.seen (Part000.collect g)
                 ∧ aliveTruthy e = true
                 ∧ ¬ (aliveNeighborCount g r c = 2%nat
                      ∨ aliveNeighborCount g r c = 3%nat)).
  { intros (m & e' & [= <-] & He' & Hs & Hd & Hn)%Hik.
    rewrite He in He'. injection He' as <-. rewrite Hid in Hs.
    cbn [fst snd] in Hn. by rewrite !Z2Nat.id in Hn by done. }
  destruct (decide (cellId r c ∈ Part000.seen (Part000.collect g))) as [Hs | Hs].
  - destruct (His Hs) as [Hk' Hr'].
    repeat case_decide; try done; try tauto;
      try (destruct Hres as (_ & ? & ?); [done |]; tauto);
      try (destruct Hkill as (_ & ? & ?); [done |]; tauto).
  - repeat case_decide; try done; tauto.
Qed.

(** ** Which coordinates game.js scans *)

Lemma elem_of_loopIndices (colsLength rowsLength : nat) r c :
  (r, c) ∈ GameJs.loopIndices colsLength rowsLength ↔
  0 ≤ c < Z.of_nat colsLength ∧ 0 ≤ r < Z.of_nat rowsLength.
Proof.
  unfold GameJs.loopIndices. rewrite list_elem_of_bind. split.
  - intros (colIdx & Hin & Hc). apply list_elem_of_bind in Hin as (rowIdx & Hin & Hr).
    apply list_elem_of_singleton in Hin as [= -> ->].
    apply elem_of_seqZ in Hc, Hr. lia.
  - intros [Hc Hr]. exists c. split; [| apply elem_of_seqZ; lia].
    apply list_elem_of_bind. exists r. split; [| apply elem_of_seqZ; lia].
    by apply list_elem_of_singleton.
Qed.

(** No pair of indices is produced twice. *)
Lemma NoDup_loopIndices (colsLength rowsLength : nat) :
  NoDup (GameJs.loopIndices colsLength rowsLength).
Proof.
  unfold GameJs.loopIndices. apply NoDup_bind; [| | apply NoDup_seqZ].
  - intros c1 c2 [r c] _ _ H1 H2.
    apply list_elem_of_bind in H1 as (r1 & [= -> ->]%list_elem_of_singleton & _).
    apply list_elem_of_bind in H2 as (r2 & [= _ ->]%list_elem_of_singleton & _).
    done.
  - intros colIdx _. apply NoDup_bind; [| | apply NoDup_seqZ].
    + intros r1 r2 [r c] _ _ [= -> _]%list_elem_of_singleton
        [= -> _]%list_elem_of_singleton. done.
    + intros rowIdx _. apply NoDup_singleton.
Qed.

(** On a grid of [rows] rows and [cols] columns the first index of the scan
    runs over the columns' range and the second over the rows' range. *)
Lemma elem_of_scanned (rows cols : nat) (g : Grid) r c :
  hasShape rows cols g → (0 < rows)%nat →
  (r, c) ∈ GameJs.scanned g ↔
  0 ≤ r < Z.of_nat cols ∧ 0 ≤ c < Z.of_nat rows.
Proof.
  intros [Hlen Hrows] Hpos. destruct g as [| row0 g0]; [simpl in Hlen; lia |].
  cbn [GameJs.scanned]. rewrite elem_of_loopIndices, Hlen.
  apply Forall_cons in Hrows as [-> _]. tauto.
Qed.

Lemma cellAt_hasShape (rows cols : nat) (g : Grid) r c :
  hasShape rows cols g →
  is_Some (cellAt g r c) ↔ 0 ≤ r < Z.of_nat rows ∧ 0 ≤ c < Z.of_nat cols.
Proof.
  intros [Hlen Hrows]. unfold cellAt, nodeAt. cbn [fst snd]. case_decide as Hrc.
  - destruct (g !! Z.to_nat r) as [row |] eqn:Hrow.
    + pose proof (lookup_lt_Some _ _ _ Hrow) as Hlt.
      rewrite Forall_forall in Hrows.
      specialize (Hrows row (list_elem_of_lookup_2 _ _ _ Hrow)).
      rewrite lookup_lt_is_Some, Hrows. lia.
    + apply lookup_ge_None in Hrow. split; [by intros [? ?] | lia].
  - split; [by intros [? ?] | lia].
Qed.

(** On a square grid the scan meets no missing node, and [render] runs to
    its end. *)
Lemma GameJs_render_square (n : nat) (g : Grid) :
  wfGrid g → hasShape n n g → (0 < n)%nat → ∃ g', GameJs.render g = Normal g'.
Proof.
  intros Hwf Hsh Hpos. unfold GameJs.render.
  destruct g as [| row0 g0] eqn:Hg; [destruct Hsh as [Hlen _]; simpl in Hlen; lia |].
  rewrite <- Hg in *. clear Hg. apply applyLists_Normal.
  - unfold GameJs.collect. rewrite foldl_visit_kill. cbn [nodesToKill].
    intros [[]%elem_of_nil | (rc & _ & _ & Ha & _)]. done.
  - unfold GameJs.collect. rewrite foldl_visit_resurrect. cbn [nodesToResurrect].
    intros [[]%elem_of_nil | ([r c] & Hin & Hnode & _)]. cbn [fst snd] in *.
    apply (elem_of_scanned n n) in Hin; [| done..].
    assert (is_Some (cellAt g r c)) as [e He] by (apply (cellAt_hasShape n n); [done | lia]).
    by rewrite (getNode_wf_Some g r c e) in Hnode.
Qed.

Lemma wfGridb_spec (g : Grid) : wfGridb g = true ↔ wfGrid g.
Proof.
  unfold wfGridb, wfGrid. rewrite forallb_forall. split.
  - intros H n e He. apply elem_of_cells, list_elem_of_In in He.
    by apply H, bool_decide_eq_true in He.
  - intros H [n e] Hin. apply bool_decide_eq_true.
    apply H. by apply elem_of_cells, list_elem_of_In.
Qed.

(** ** The generation step: claims *)

(** C2. The step of game.js does not give every cell it evaluates the
    state the rule asks for. On [bottomRow], a grid the page reaches in a
    100 x 64 pixel window, the scan judges the dead cell (1,2), which has
    three alive neighbours, and pushes it to [nodesToResurrect] behind a
    [null]: the coordinate (3,1), outside the grid, has three alive
    neighbours too. The loop that applies the births revives (1,1), throws
    at the [null], and (1,2) stays dead. The step of part_000, which drops
    the [null]s, revives it. *)
Theorem scanned_birth_lost_on_bottomRow :
  reachable gameJs (bottomRowRunning gameJs)
  ∧ grid (bottomRowRunning gameJs) = bottomRow
  ∧ enabled (IntervalFires 1) (bottomRowRunning gameJs)
  ∧ (1, 2) ∈ GameJs.scanned bottomRow
  ∧ aliveAt bottomRow 1 2 = false
  ∧ aliveNeighborCount bottomRow 1 2 = 3%nat
  ∧ lifeRule (aliveAt bottomRow 1 2) (aliveNeighborCount bottomRow 1 2) = true
  ∧ nodesToKill (GameJs.collect bottomRow) = [Some (2, 0)%nat]
  ∧ nodesToResurrect (GameJs.collect bottomRow)
    = [Some (1, 1)%nat; None; Some (1, 2)%nat; None]
  ∧ (∃ g', GameJs.render bottomRow = Throw TypeError g'
           ∧ aliveAt g' 1 1 = true ∧ aliveAt g' 1 2 = false)
  ∧ aliveAt (grid (dispatch gameJs (IntervalFires 1) (bottomRowRunning gameJs)))
      1 2 = false
  ∧ aliveAt (domOf (Part000.render bottomRow)) 1 2 = true.
Proof.
  split_and!.
  - unfold bottomRowRunning. cbn [foldl].
    repeat (apply reach_step; [| first [exact I | eexists; vm_compute; reflexivity]]).
    apply reach_boot.
  - vm_compute. reflexivity.
  - apply (bool_decide_eq_true_1 (1%nat ∈ intervals (bottomRowRunning gameJs))).
    vm_compute. reflexivity.
  - apply (bool_decide_eq_true_1 ((1, 2) ∈ GameJs.scanned bottomRow)).
    vm_compute. reflexivity.
  - vm_compute. reflexivity.
  - vm_compute. reflexivity.
  - vm_compute. reflexivity.
  - vm_compute. reflexivity.
  - vm_compute. reflexivity.
  - eexists. split_and!; vm_compute; reflexivity.
  - vm_compute. reflexivity.
  - vm_compute. reflexivity.
Qed.

(** The blinker turns, in both versions. *)
Example blinker_turns :
  GameJs.render blinker = Normal (clickAll [(0, 2); (1, 2); (2, 2)]%nat grid5x5)
  ∧ Part000.render blinker = Normal (clickAll [(0, 2); (1, 2); (2, 2)]%nat grid5x5).
Proof. split; vm_compute; reflexivity. Qed.

(** A lone cell in the middle of [grid3x3] dies and nothing is born, in both
    versions. *)
Example lone_cell_dies :
  GameJs.render (clickAll [(1, 1)%nat] grid3x3) = Normal grid3x3
  ∧ Part000.render (clickAll [(1, 1)%nat] grid3x3) = Normal grid3x3.
Proof. split; vm_compute; reflexivity. Qed.

(** C1. The two versions of the step do not agree on every grid. On [tee],
    a square grid, the dead cell (2,1) has three alive neighbours; the scan
    of game.js revives it, the walk of part_000 never evaluates it: the
    first alive cell (0,1) marks the three cells below it as seen, and
    [check] returns for a seen cell before it looks at the neighbours. *)
Theorem variants_disagree_on_tee :
  lifeRule (aliveAt tee 2 1) (aliveNeighborCount tee 2 1) = true
  ∧ (cellId 2 1 ∉ Part000.seen (Part000.collect tee))
  ∧ ∃ gScan gWalk,
      GameJs.render tee = Normal gScan ∧ Part000.render tee = Normal gWalk
      ∧ aliveAt gScan 2 1 = true ∧ aliveAt gWalk 2 1 = false.
Proof.
  split; [vm_compute; reflexivity |]. split.
  - apply (bool_decide_eq_false_1 (cellId 2 1 ∈ Part000.seen (Part000.collect tee))).
    vm_compute. reflexivity.
  - eexists _, _. split_and!; vm_compute; reflexivity.
Qed.

(** C3. The scan of game.js does not visit the rectangle of the grid when
    the grid is not square: [colsLength] is the number of rows and
    [rowsLength] the number of columns, while ids are built row first. On
    the one-row, two-column grid [grid1x2] the cell (0,1) is never
    evaluated and the coordinate (1,0), which is outside the grid, is; the
    lone alive cell (0,1) therefore survives the step. *)
Theorem scan_is_transposed_on_grid1x2 :
  hasShape 1 2 grid1x2
  ∧ GameJs.scanned grid1x2 = [(0, 0); (1, 0)]
  ∧ is_Some (cellAt grid1x2 0 1) ∧ cellAt grid1x2 1 0 = None
  ∧ lifeRule (aliveAt grid1x2 0 1) (aliveNeighborCount grid1x2 0 1) = false
  ∧ ∃ g', GameJs.render grid1x2 = Normal g' ∧ aliveAt g' 0 1 = true.
Proof.
  split_and!; try (vm_compute; reflexivity).
  - split; [reflexivity |]. repeat constructor.
  - by eexists.
  - eexists. split; vm_compute; reflexivity.
Qed.

(** C4. The step of game.js is not total. With no row in the grid (a window
    less than 22 pixels high) it reads [grid.childNodes[0].childNodes] on
    [undefined]; on [grid2x3] the scan evaluates the coordinate (2,1), which
    is outside the grid and has three alive neighbours, pushes [null] to
    [nodesToResurrect] and throws when it writes to it. *)
Theorem render_throws_TypeError :
  initGridDom 21 64 [] = []
  ∧ GameJs.render [] = Throw TypeError []
  ∧ hasShape 2 3 grid2x3
  ∧ None ∈ nodesToResurrect (GameJs.collect grid2x3)
  ∧ ∃ g', GameJs.render grid2x3 = Throw TypeError g'.
Proof.
  split_and!; try (vm_compute; reflexivity).
  - split; [reflexivity |]. repeat constructor.
  - apply (bool_decide_eq_true_1 (None ∈ nodesToResurrect (GameJs.collect grid2x3))).
    vm_compute. reflexivity.
  - eexists. vm_compute. reflexivity.
Qed.

(** What does hold of C4: outside the grid there is no node, a missing node
    reads as dead and is not counted as a neighbour. *)
Lemma read_outside_is_dead (g : Grid) r c :
  wfGrid g → cellAt g r c = None →
  getNode g r c = None ∧ getIsNodeAlive g (getNode g r c) = false.
Proof. intros Hwf Hc. rewrite getNode_wf by done. by rewrite Hc. Qed.

(** ** Resizing the grid *)

Lemma sliceTo_take {A} (n : Z) (xs : list A) :
  ∃ k, sliceTo n xs = take k xs ∧ (0 ≤ n → k = Z.to_nat n).
Proof.
  unfold sliceTo. case_decide; eexists; (split; [done |]); [lia | done].
Qed.

Lemma lookup_reconcileRows (reqRows : Z) (g : Grid) (i : nat) :
  0 ≤ reqRows →
  reconcileRows reqRows g !! i
  = if decide (i < Z.to_nat reqRows)%nat then Some (default [] (g !! i)) else None.
Proof.
  intros Hreq. unfold reconcileRows, sliceTo.
  rewrite (decide_False (P := reqRows < 0)) by lia.
  destruct (decide (Z.of_nat (length g) > reqRows)) as [Hgt | Hle].
  - case_decide as Hi.
    + rewrite lookup_take_lt by done.
      destruct (lookup_lt_is_Some_2 g i) as [x ->]; [lia | done].
    + apply lookup_take_ge. lia.
  - case_decide as Hi.
    + destruct (decide (i < length g)%nat) as [Hlt | Hge].
      * rewrite lookup_app_l by done.
        destruct (lookup_lt_is_Some_2 g i) as [x ->]; done.
      * rewrite lookup_app_r by lia. rewrite (lookup_ge_None_2 g i) by lia.
        simpl. apply lookup_replicate_2. lia.
    + apply lookup_ge_None_2. rewrite length_app, length_replicate. lia.
Qed.

Lemma lookup_reconcileCols (reqCols : Z) (rowIdx : nat) (row : list Element)
    (j : nat) :
  0 ≤ reqCols →
  reconcileCols reqCols rowIdx row !! j
  = if decide (j < Z.to_nat reqCols)%nat
    then Some (default (newColumn (Z.of_nat rowIdx) (Z.of_nat j)) (row !! j))
    else None.
Proof.
  intros Hreq. unfold reconcileCols, sliceTo.
  rewrite (decide_False (P := reqCols < 0)) by lia.
  destruct (decide (Z.of_nat (length row) > reqCols)) as [Hgt | Hle].
  - case_decide as Hj.
    + rewrite lookup_take_lt by done.
      destruct (lookup_lt_is_Some_2 row j) as [x ->]; [lia | done].
    + apply lookup_take_ge. lia.
  - case_decide as Hj.
    + destruct (decide (j < length row)%nat) as [Hlt | Hge].
      * rewrite lookup_app_l by done.
        destruct (lookup_lt_is_Some_2 row j) as [x ->]; done.
      * rewrite lookup_app_r by lia. rewrite (lookup_ge_None_2 row j) by lia.
        rewrite list_lookup_fmap, lookup_seqZ_lt by lia. simpl.
        do 2 f_equal. lia.
    + apply lookup_ge_None_2. rewrite length_app, length_fmap, length_seqZ. lia.
Qed.

(** The node at a place after [initGrid], when the required shape is not
    negative: inside the required shape it is the node that was there, or a
    new dead cell; outside there is none. *)
Lemma nodeAt_initGridDom (height width : Z) (g : Grid) (n : NodeRef) :
  0 ≤ reqRowsOf height → 0 ≤ reqColsOf width →
  nodeAt (initGridDom height width g) n
  = if decide (n.1 < Z.to_nat (reqRowsOf height)
               ∧ n.2 < Z.to_nat (reqColsOf width))%nat
    then Some (default (newColumn (Z.of_nat n.1) (Z.of_nat n.2)) (nodeAt g n))
    else None.
Proof.
  intros Hr Hc. unfold nodeAt, initGridDom. destruct n as [i j]. cbn [fst snd].
  rewrite list_lookup_imap, lookup_reconcileRows by done.
  destruct (decide (i < Z.to_nat (reqRowsOf height))%nat) as [Hi | Hi]; cbn.
  - rewrite lookup_reconcileCols by done.
    destruct (decide (j < Z.to_nat (reqColsOf width))%nat) as [Hj | Hj].
    + rewrite decide_True by done. by destruct (g !! i).
    + rewrite decide_False by tauto. done.
  - rewrite decide_False by tauto. done.
Qed.

Lemma hasShape_initGridDom (height width : Z) (g : Grid) :
  0 ≤ reqRowsOf height → 0 ≤ reqColsOf width →
  hasShape (Z.to_nat (reqRowsOf height)) (Z.to_nat (reqColsOf width))
    (initGridDom height width g).
Proof.
  intros Hr Hc. split.
  - unfold initGridDom. rewrite length_imap.
    unfold reconcileRows, sliceTo.
    rewrite (decide_False (P := reqRowsOf height < 0)) by lia.
    case_decide; [rewrite length_take | rewrite length_app, length_replicate]; lia.
  - apply Forall_forall. intros row Hrow. unfold initGridDom in Hrow.
    apply elem_of_lookup_imap in Hrow as (i & row0 & -> & _).
    unfold reconcileCols, sliceTo.
    rewrite (decide_False (P := reqColsOf width < 0)) by lia.
    case_decide;
      [rewrite length_take | rewrite length_app, length_fmap, length_seqZ]; lia.
Qed.

Lemma cellAt_hasShape_Some (rows cols : nat) (g : Grid) r c e :
  hasShape rows cols g → cellAt g r c = Some e →
  0 ≤ r < Z.of_nat rows ∧ 0 ≤ c < Z.of_nat cols.
Proof. intros Hsh He. apply (cellAt_hasShape rows cols g); [done | by eexists]. Qed.

Lemma cellAt_initGridDom (height width : Z) (g : Grid) r c :
  0 ≤ reqRowsOf height → 0 ≤ reqColsOf width →
  cellAt (initGridDom height width g) r c
  = if decide (0 ≤ r < reqRowsOf height ∧ 0 ≤ c < reqColsOf width)
    then Some (default (newColumn r c) (cellAt g r c))
    else None.
Proof.
  intros Hr Hc. unfold cellAt. case_decide as Hrc.
  - rewrite nodeAt_initGridDom by done. cbn [fst snd].
    rewrite !Z2Nat.id by lia. repeat case_decide; try done; lia.
  - rewrite decide_False by lia. done.
Qed.

(** Whatever the required shape: a node of the grid after [initGrid] is the
    node that was at the same place, or a new dead cell with the id of the
    place. *)
Lemma nodeAt_initGridDom_inv (height width : Z) (g : Grid) (n : NodeRef) e :
  nodeAt (initGridDom height width g) n = Some e →
  nodeAt g n = Some e ∨ e = newColumn (Z.of_nat n.1) (Z.of_nat n.2).
Proof.
  unfold nodeAt, initGridDom. destruct n as [i j]. cbn [fst snd].
  rewrite list_lookup_imap.
  destruct (reconcileRows (reqRowsOf height) g !! i) as [row |] eqn:Hrow; [| done].
  cbn. intros He.
  assert (Hrow' : g !! i = Some row ∨ row = []).
  { unfold reconcileRows in Hrow. case_decide.
    - destruct (sliceTo_take (reqRowsOf height) g) as (k & Hk & _).
      rewrite Hk in Hrow. apply lookup_take_Some in Hrow as [? _]. by left.
    - apply lookup_app_Some in Hrow as [? | [_ Hrep]]; [by left |].
      apply lookup_replicate in Hrep as [-> _]. by right. }
  assert (He' : row !! j = Some e ∨ e = newColumn (Z.of_nat i) (Z.of_nat j)).
  { unfold reconcileCols in He. case_decide.
    - destruct (sliceTo_take (reqColsOf width) row) as (k & Hk & _).
      rewrite Hk in He. apply lookup_take_Some in He as [? _]. by left.
    - apply lookup_app_Some in He as [? | [Hge Hnew]]; [by left |]. right.
      rewrite list_lookup_fmap in Hnew.
      apply fmap_Some in Hnew as (z & Hz & ->).
      apply lookup_seqZ in Hz as [-> _]. f_equal. lia. }
  destruct He' as [He' | ->]; [| by right].
  destruct Hrow' as [-> | ->]; [by left | done].
Qed.

Lemma wfGrid_initGridDom (height width : Z) (g : Grid) :
  wfGrid g → wfGrid (initGridDom height width g).
Proof.
  intros Hwf n e [He | ->]%nodeAt_initGridDom_inv; [by apply Hwf | done].
Qed.

Lemma markersOk_initGridDom (height width : Z) (g : Grid) :
  markersOk g → markersOk (initGridDom height width g).
Proof.
  intros Hm n e [He | ->]%nodeAt_initGridDom_inv; [by eapply Hm | by left].
Qed.

(** C6. [initGrid] on a grid of [rows] x [cols] cells. When the window asks
    for at least as many rows and columns, the new grid has the required
    shape, every cell of the old grid is still there as it was, and every
    coordinate that had no cell is dead. When the window asks for fewer rows
    and fewer columns, the new grid has the required shape and holds exactly
    the old cells whose coordinates are inside it. *)
Theorem resize_preserves_cells (g : Grid) (rows cols : nat) (height width : Z) :
  hasShape rows cols g →
  let g' := initGridDom height width g in
  let reqRows := reqRowsOf height in
  let reqCols := reqColsOf width in
  (Z.of_nat rows ≤ reqRows → Z.of_nat cols ≤ reqCols →
     hasShape (Z.to_nat reqRows) (Z.to_nat reqCols) g'
     ∧ (∀ r c e, cellAt g r c = Some e → cellAt g' r c = Some e)
     ∧ (∀ r c, cellAt g r c = None → aliveAt g' r c = false)
     ∧ (∀ r c, aliveAt g' r c = aliveAt g r c))
  ∧ (0 ≤ reqRows < Z.of_nat rows → 0 ≤ reqCols < Z.of_nat cols →
       hasShape (Z.to_nat reqRows) (Z.to_nat reqCols) g'
       ∧ (∀ r c, cellAt g' r c
                 = if decide (0 ≤ r < reqRows ∧ 0 ≤ c < reqCols)
                   then cellAt g r c else None)
       ∧ (∀ r c, aliveAt g' r c
                 = if decide (0 ≤ r < reqRows ∧ 0 ≤ c < reqCols)
                   then aliveAt g r c else false)).
Proof.
  intros Hsh g' reqRows reqCols. split.
  - intros Hr Hc.
    assert (Hr0 : 0 ≤ reqRowsOf height) by (subst reqRows; lia).
    assert (Hc0 : 0 ≤ reqColsOf width) by (subst reqCols; lia).
    assert (Hold : ∀ r c e, cellAt g r c = Some e → cellAt g' r c = Some e).
    { intros r c e He. subst g'. rewrite cellAt_initGridDom by done.
      pose proof (cellAt_hasShape_Some _ _ _ _ _ _ Hsh He).
      rewrite decide_True by (subst reqRows reqCols; lia). by rewrite He. }
    assert (Hnew : ∀ r c, cellAt g r c = None → aliveAt g' r c = false).
    { intros r c He. unfold aliveAt. subst g'.
      rewrite cellAt_initGridDom by done. rewrite He. by case_decide. }
    split_and!; [by apply hasShape_initGridDom | done | done |].
    intros r c. destruct (cellAt g r c) as [e |] eqn:He.
    + unfold aliveAt. by rewrite (Hold _ _ _ He), He.
    + rewrite (Hnew _ _ He). unfold aliveAt. by rewrite He.
  - intros Hr Hc.
    assert (Hr0 : 0 ≤ reqRowsOf height) by (subst reqRows; lia).
    assert (Hc0 : 0 ≤ reqColsOf width) by (subst reqCols; lia).
    assert (Hcell : ∀ r c, cellAt g' r c
                    = if decide (0 ≤ r < reqRows ∧ 0 ≤ c < reqCols)
                      then cellAt g r c else None).
    { intros r c. subst g'. rewrite cellAt_initGridDom by done.
      fold reqRows reqCols. case_decide as Hin; [| done].
      assert (is_Some (cellAt g r c)) as [e ->]; [| done].
      apply (cellAt_hasShape rows cols g); [done | lia]. }
    split_and!; [by apply hasShape_initGridDom | done |].
    intros r c. unfold aliveAt. rewrite Hcell. by case_decide.
Qed.

Lemma resize_preserves_cells_witness :
  hasShape 3 3 corners ∧
  (let g' := initGridDom 107 100 corners in
   Z.of_nat 3 ≤ reqRowsOf 107 ∧ Z.of_nat 3 ≤ reqColsOf 100
   ∧ hasShape (Z.to_nat (reqRowsOf 107)) (Z.to_nat (reqColsOf 100)) g'
   ∧ (∀ r c e, cellAt corners r c = Some e → cellAt g' r c = Some e)
   ∧ (∀ r c, cellAt corners r c = None → aliveAt g' r c = false)
   ∧ (∀ r c, aliveAt g' r c = aliveAt corners r c))
  ∧ (let g' := initGridDom 43 33 corners in
     0 ≤ reqRowsOf 43 < Z.of_nat 3 ∧ 0 ≤ reqColsOf 33 < Z.of_nat 3
     ∧ hasShape (Z.to_nat (reqRowsOf 43)) (Z.to_nat (reqColsOf 33)) g'
     ∧ (∀ r c, cellAt g' r c
               = if decide (0 ≤ r < reqRowsOf 43 ∧ 0 ≤ c < reqColsOf 33)
                 then cellAt corners r c else None)
     ∧ (∀ r c, aliveAt g' r c
               = if decide (0 ≤ r < reqRowsOf 43 ∧ 0 ≤ c < reqColsOf 33)
                 then aliveAt corners r c else false)).
Proof.
  assert (Hsh : hasShape 3 3 corners) by (split; [reflexivity | repeat constructor]).
  assert (H1 : Z.of_nat 3 ≤ reqRowsOf 107) by (vm_compute; discriminate).
  assert (H2 : Z.of_nat 3 ≤ reqColsOf 100) by (vm_compute; discriminate).
  assert (H3 : 0 ≤ reqRowsOf 43 < Z.of_nat 3)
    by (split; vm_compute; [discriminate | reflexivity]).
  assert (H4 : 0 ≤ reqColsOf 33 < Z.of_nat 3)
    by (split; vm_compute; [discriminate | reflexivity]).
  split; [exact Hsh |]. split.
  - split; [exact H1 |]. split; [exact H2 |].
    exact (proj1 (resize_preserves_cells corners 3 3 107 100 Hsh) H1 H2).
  - split; [exact H3 |]. split; [exact H4 |].
    exact (proj2 (resize_preserves_cells corners 3 3 43 33 Hsh) H3 H4).
Defined.

(** The two resizes of the witness, computed. *)
Example resize_corners :
  initGridDom 107 100 corners = clickAll [(0, 0); (2, 2)]%nat grid5x5
  ∧ initGridDom 43 33 corners
    = [[withAlive (Some "true"%string) (newColumn 0 0); newColumn 0 1];
       [newColumn 1 0; newColumn 1 1]].
Proof. split; vm_compute; reflexivity. Qed.

(** ** What the handlers keep true of the DOM *)

Lemma nodeAt_updateNode_inv v n (g : Grid) m e' :
  nodeAt (updateNode (withAlive v) n g) m = Some e' →
  ∃ e, nodeAt g m = Some e ∧ node_id e' = node_id e
       ∧ (e' = e ∨ data_alive e' = v).
Proof.
  rewrite nodeAt_updateNode. case_decide as Hm; [subst m |].
  - intros (e & He & ->)%fmap_Some. exists e. split_and!; [done.. |]. by right.
  - intros He. exists e'. split_and!; [done.. |]. by left.
Qed.

Lemma nodeAt_fmap_fmap (f : Element → Element) (g : Grid) n :
  nodeAt ((λ row : list Element, f <$> row) <$> g) n = f <$> nodeAt g n.
Proof.
  unfold nodeAt. rewrite list_lookup_fmap.
  destruct (g !! n.1) as [row |]; [| done]. cbn. by rewrite list_lookup_fmap.
Qed.

Lemma grid_onDragBody isDragStart target s :
  grid (onDragBody isDragStart target s) = grid s.
Proof. unfold onDragBody. by destruct isDragStart, target. Qed.

Lemma grid_onDrag (sc : Script) isDragStart target s :
  sc ∈ scripts → grid (onDrag sc isDragStart target s) = grid s.
Proof.
  intros Hsc. unfold scripts in Hsc.
  apply elem_of_cons in Hsc as [-> | Hsc];
    [| apply list_elem_of_singleton in Hsc as ->]; cbn [onDrag gameJs part000];
    by rewrite grid_onDragBody.
Qed.

Lemma grid_playBtnClick s : grid (playBtnClick s) = grid s.
Proof. unfold playBtnClick. by destruct (intervalId s). Qed.

(** A property of the DOM that the three ways of writing to it keep (giving
    a node the marker ['true'] or none, clearing, resizing) is kept by every
    handler and by the generation step, also when the step is left by an
    exception. *)
Section DomInvariant.
Variable P : Grid → Prop.
Hypothesis P_update : ∀ v n (g : Grid),
  v = None ∨ v = Some "true"%string → P g → P (updateNode (withAlive v) n g).
Hypothesis P_clear : ∀ g : Grid,
  P g →
  P ((λ row : list Element,
        (λ col, if aliveTruthy col then withAlive None col else col) <$> row)
       <$> g).
Hypothesis P_initGrid : ∀ height width (g : Grid),
  P g → P (initGridDom height width g).

Lemma inv_removeAlive n (g : Grid) : P g → P (removeAlive n g).
Proof. apply P_update. by left. Qed.

Lemma inv_setAliveTrue n (g : Grid) : P g → P (setAliveTrue n g).
Proof. apply P_update. by right. Qed.

Lemma inv_forOf write (nodes : list (option NodeRef)) (g : Grid) :
  (∀ n g', P g' → P (write n g')) → P g → P (domOf (forOf write nodes g)).
Proof.
  intros Hw. revert g. induction nodes as [| [n |] nodes IH]; intros g Hg; simpl.
  - done.
  - apply IH. by apply Hw.
  - done.
Qed.

Lemma inv_applyLists (l : Lists) (g : Grid) :
  P g → P (domOf (applyLists l g)).
Proof.
  intros Hg. unfold applyLists.
  pose proof (inv_forOf removeAlive (nodesToKill l) g inv_removeAlive Hg) as H1.
  destruct (forOf removeAlive (nodesToKill l) g) as [g1 | err g1]; [| done].
  by apply inv_forOf; [apply inv_setAliveTrue |].
Qed.

Lemma inv_render (sc : Script) (g : Grid) :
  sc ∈ scripts → P g → P (domOf (render sc g)).
Proof.
  intros Hsc Hg. unfold scripts in Hsc.
  apply elem_of_cons in Hsc as [-> | Hsc];
    [| apply list_elem_of_singleton in Hsc as ->].
  - cbn [render gameJs]. unfold GameJs.render. destruct g; [done |].
    by apply inv_applyLists.
  - cbn [render part000]. by apply inv_applyLists.
Qed.

Lemma inv_onmousedown n (g : Grid) : P g → P (onmousedown n g).
Proof.
  intros Hg. unfold onmousedown. destruct (nodeAt g n) as [e |]; [| done].
  destruct (aliveIsTrue e); [by apply inv_removeAlive | by apply inv_setAliveTrue].
Qed.

Lemma inv_dispatch (sc : Script) ev s :
  sc ∈ scripts → P (grid s) → P (grid (dispatch sc ev s)).
Proof.
  intros Hsc Hg. destruct ev as [| | [n |] | | target | | n | height width | id];
    cbn [dispatch]; rewrite ?grid_onDrag by done.
  - by rewrite grid_playBtnClick.
  - by apply P_clear.
  - by apply inv_onmousedown.
  - done.
  - done.
  - done.
  - done.
  - unfold onmouseenter. destruct (dragType s) as [[] |]; cbn [grid withGrid];
      [by apply inv_removeAlive | by apply inv_setAliveTrue | done].
  - by apply P_initGrid.
  - by apply inv_render.
Qed.

Lemma inv_reachable (sc : Script) s :
  sc ∈ scripts → P [] → reachable sc s → P (grid s).
Proof.
  intros Hsc Hnil Hs. induction Hs as [label height width | s ev Hs IH Hev].
  - unfold boot, initGrid. cbn [grid withGrid]. by apply P_initGrid.
  - by apply inv_dispatch.
Qed.
End DomInvariant.

Lemma wfGrid_updateNode v n (g : Grid) :
  wfGrid g → wfGrid (updateNode (withAlive v) n g).
Proof.
  intros Hwf m e' (e & He & Hid & _)%nodeAt_updateNode_inv.
  rewrite Hid. by apply Hwf.
Qed.

Lemma markersOk_updateNode v n (g : Grid) :
  v = None ∨ v = Some "true"%string →
  markersOk g → markersOk (updateNode (withAlive v) n g).
Proof.
  intros Hv Hm m e' (e & He & Hid & [-> | Hd])%nodeAt_updateNode_inv.
  - by eapply Hm.
  - unfold markerOk. rewrite Hd. done.
Qed.

Lemma wfGrid_clear (g : Grid) :
  wfGrid g →
  wfGrid ((λ row : list Element,
             (λ col, if aliveTruthy col then withAlive None col else col) <$> row)
            <$> g).
Proof.
  intros Hwf n e'. rewrite nodeAt_fmap_fmap. intros (e & He & ->)%fmap_Some.
  destruct (aliveTruthy e); [| by apply Hwf]. cbn [withAlive node_id]. by apply Hwf.
Qed.

Lemma markersOk_clear (g : Grid) :
  markersOk g →
  markersOk ((λ row : list Element,
                (λ col, if aliveTruthy col then withAlive None col else col) <$> row)
               <$> g).
Proof.
  intros Hm n e'. rewrite nodeAt_fmap_fmap. intros (e & He & ->)%fmap_Some.
  destruct (aliveTruthy e); [by left | by eapply Hm].
Qed.

Lemma nodeAt_nil n : nodeAt [] n = None.
Proof. unfold nodeAt. by rewrite lookup_nil. Qed.

(** Every handler and the step keep the ids in place and the markers in
    {absent, ['true']}. *)
Lemma wfGrid_dispatch (sc : Script) ev s :
  sc ∈ scripts → wfGrid (grid s) → wfGrid (grid (dispatch sc ev s)).
Proof.
  apply (inv_dispatch wfGrid).
  - intros v n g _. apply wfGrid_updateNode.
  - apply wfGrid_clear.
  - apply wfGrid_initGridDom.
Qed.

Lemma markersOk_dispatch (sc : Script) ev s :
  sc ∈ scripts → markersOk (grid s) → markersOk (grid (dispatch sc ev s)).
Proof.
  apply (inv_dispatch markersOk).
  - apply markersOk_updateNode.
  - apply markersOk_clear.
  - apply markersOk_initGridDom.
Qed.

Lemma reachable_domOk (sc : Script) s :
  sc ∈ scripts → reachable sc s → domOk (grid s).
Proof.
  intros Hsc Hs. split.
  - refine (inv_reachable wfGrid _ _ _ sc s Hsc _ Hs).
    + intros v n g _. apply wfGrid_updateNode.
    + apply wfGrid_clear.
    + apply wfGrid_initGridDom.
    + intros n e. by rewrite nodeAt_nil.
  - refine (inv_reachable markersOk _ _ _ sc s Hsc _ Hs).
    + apply markersOk_updateNode.
    + apply markersOk_clear.
    + apply markersOk_initGridDom.
    + intros n e. by rewrite nodeAt_nil.
Qed.

(** The two tests for "alive" agree on a cell whose marker is ['true'] or
    absent. *)
Lemma markerOk_tests_agree e : markerOk e → aliveTruthy e = aliveIsTrue e.
Proof.
  unfold markerOk, aliveTruthy, aliveIsTrue. by intros [-> | ->].
Qed.

(** ** What the handlers keep true of the clock *)

Lemma clockOk_pause s : clockOk s → clockOk (pause s).
Proof.
  intros [Hint Hnext]. split; cbn [pause intervals intervalId nextIntervalId].
  - rewrite Hint. destruct (intervalId s); cbn [clearInterval]; set_solver.
  - intros i Hi. apply Hnext. destruct (intervalId s); cbn [clearInterval] in Hi;
      set_solver.
Qed.

Lemma clockOk_play s : intervalId s = None → clockOk s → clockOk (play s).
Proof.
  intros Hnone [Hint Hnext]. rewrite Hnone in Hint.
  split; cbn [play intervals intervalId nextIntervalId].
  - rewrite Hint. set_solver.
  - intros i Hi. rewrite Hint in Hi. assert (i = nextIntervalId s) by set_solver.
    lia.
Qed.

Lemma clockOk_same s s' :
  intervals s' = intervals s → intervalId s' = intervalId s →
  nextIntervalId s' = nextIntervalId s → clockOk s → clockOk s'.
Proof. unfold clockOk. by intros -> -> ->. Qed.

Lemma clockOk_onDragBody isDragStart target s :
  clockOk s → clockOk (onDragBody isDragStart target s).
Proof.
  apply clockOk_same; unfold onDragBody; by destruct isDragStart, target.
Qed.

Lemma clockOk_dispatch (sc : Script) ev s :
  sc ∈ scripts → clockOk s → clockOk (dispatch sc ev s).
Proof.
  intros Hsc Hs.
  assert (Hdrag : ∀ b t s', clockOk s' → clockOk (onDrag sc b t s')).
  { intros b t s' Hs'. unfold scripts in Hsc.
    apply elem_of_cons in Hsc as [-> | Hsc];
      [| apply list_elem_of_singleton in Hsc as ->]; cbn [onDrag gameJs part000].
    - by apply clockOk_onDragBody, clockOk_pause.
    - by apply clockOk_onDragBody. }
  destruct ev as [| | [n |] | | target | | n | height width | id];
    cbn [dispatch].
  - unfold playBtnClick. destruct (intervalId s) eqn:Hid;
      [by apply clockOk_pause | by apply clockOk_play].
  - unfold clearBtnClick. by eapply clockOk_same, clockOk_pause.
  - apply Hdrag. by eapply clockOk_same.
  - by apply Hdrag.
  - by apply Hdrag.
  - by apply Hdrag.
  - by apply Hdrag.
  - unfold onmouseenter. destruct (dragType s) as [[] |]; [| | done];
      by eapply clockOk_same.
  - by eapply clockOk_same.
  - by eapply clockOk_same.
Qed.

Lemma clockOk_boot label height width : clockOk (boot label height width).
Proof. split; cbn; [done | set_solver]. Qed.

Lemma reachable_clockOk (sc : Script) s :
  sc ∈ scripts → reachable sc s → clockOk s.
Proof.
  intros Hsc Hs. induction Hs as [label height width | s ev Hs IH Hev].
  - apply clockOk_boot.
  - by apply clockOk_dispatch.
Qed.

(** ** The handlers: claims *)

Lemma updateNode_twice (f1 f2 : Element → Element) n (g : Grid) :
  updateNode f2 n (updateNode f1 n g) = updateNode (f2 ∘ f1) n g.
Proof.
  unfold updateNode. rewrite list_alter_alter_eq.
  apply list_alter_ext; [| done]. intros row _. cbn.
  by rewrite list_alter_alter_eq.
Qed.

Lemma updateNode_fixed (f : Element → Element) n (g : Grid) e :
  nodeAt g n = Some e → f e = e → updateNode f n g = g.
Proof.
  unfold nodeAt, updateNode. destruct (g !! n.1) as [row |] eqn:Hrow; [| done].
  intros He Hf. rewrite <- (list_alter_id (λ x, x) g n.1) at 2 by done.
  apply list_alter_ext; [| done]. intros row' Hrow'.
  assert (row' = row) as -> by congruence.
  rewrite <- (list_alter_id (λ x, x) row n.2) at 2 by done.
  apply list_alter_ext; [| done]. intros e' He'. congruence.
Qed.

(** Two clicks on a cell whose marker is ['true'] or absent leave the DOM as
    it was. *)
Lemma aliveIsTrue_withAlive_true e :
  aliveIsTrue (withAlive (Some "true"%string) e) = true.
Proof. reflexivity. Qed.

Lemma aliveIsTrue_withAlive_None e : aliveIsTrue (withAlive None e) = false.
Proof. reflexivity. Qed.

Lemma onmousedown_twice n (g : Grid) e :
  nodeAt g n = Some e → markerOk e → onmousedown n (onmousedown n g) = g.
Proof.
  intros He Hm. unfold onmousedown at 2. rewrite He.
  destruct (aliveIsTrue e) eqn:Ha.
  - assert (Hd : data_alive e = Some "true"%string).
    { destruct Hm as [Hd | Hd]; [| done]. unfold aliveIsTrue in Ha.
      by rewrite Hd in Ha. }
    unfold onmousedown, removeAlive.
    rewrite nodeAt_updateNode, decide_True, He by done.
    cbn [fmap option_fmap option_map]. rewrite aliveIsTrue_withAlive_None.
    unfold setAliveTrue. rewrite updateNode_twice.
    apply (updateNode_fixed _ _ _ e He). destruct e. cbn in *. by subst.
  - assert (Hd : data_alive e = None).
    { destruct Hm as [Hd | Hd]; [done |]. unfold aliveIsTrue in Ha.
      rewrite Hd in Ha. by rewrite decide_True in Ha. }
    unfold onmousedown, setAliveTrue.
    rewrite nodeAt_updateNode, decide_True, He by done.
    cbn [fmap option_fmap option_map]. rewrite aliveIsTrue_withAlive_true.
    unfold removeAlive. rewrite updateNode_twice.
    apply (updateNode_fixed _ _ _ e He). destruct e. cbn in *. by subst.
Qed.

(** C9. In every reachable state, two clicks in a row on a cell of the grid
    put the DOM back as it was: the cell has its old state and no other cell
    has changed. *)
Theorem toggle_twice_restores (sc : Script) (s : State) (n : NodeRef) :
  sc ∈ scripts → reachable sc s → is_Some (nodeAt (grid s) n) →
  onmousedown n (onmousedown n (grid s)) = grid s
  ∧ grid (dispatch sc (MouseDown (OnCol n)) (dispatch sc (MouseDown (OnCol n)) s))
    = grid s.
Proof.
  intros Hsc Hs [e He].
  destruct (reachable_domOk sc s Hsc Hs) as [_ Hm].
  pose proof (onmousedown_twice n (grid s) e He (Hm _ _ He)) as Htwice.
  split; [done |]. cbn [dispatch].
  by rewrite !grid_onDrag by done.
Qed.

Lemma toggle_twice_restores_witness :
  gameJs ∈ scripts ∧ reachable gameJs booted ∧ is_Some (nodeAt (grid booted) (1, 1)%nat)
  ∧ onmousedown (1, 1)%nat (onmousedown (1, 1)%nat (grid booted)) = grid booted
  ∧ grid (dispatch gameJs (MouseDown (OnCol (1, 1)%nat))
            (dispatch gameJs (MouseDown (OnCol (1, 1)%nat)) booted))
    = grid booted.
Proof.
  assert (Hsc : gameJs ∈ scripts) by (unfold scripts; left).
  assert (Hs : reachable gameJs booted) by apply reach_boot.
  assert (Hn : is_Some (nodeAt (grid booted) (1, 1)%nat)) by (eexists; reflexivity).
  split; [exact Hsc |]. split; [exact Hs |]. split; [exact Hn |].
  exact (toggle_twice_restores gameJs booted (1, 1)%nat Hsc Hs Hn).
Defined.

(** C10. Every handler and the generation step keep each cell's marker
    either absent or the string ['true'], from any DOM that has this
    property; so it holds in every reachable state, and there the truthiness
    of the marker and its equality with ['true'] are the same test. *)
Theorem alive_marker_invariant (sc : Script) (s : State) :
  sc ∈ scripts → reachable sc s →
  (∀ s' ev, markersOk (grid s') → markersOk (grid (dispatch sc ev s')))
  ∧ markersOk (grid s)
  ∧ (∀ n e, nodeAt (grid s) n = Some e → aliveTruthy e = aliveIsTrue e).
Proof.
  intros Hsc Hs. destruct (reachable_domOk sc s Hsc Hs) as [_ Hm].
  split_and!; [| done |].
  - intros s' ev. by apply markersOk_dispatch.
  - intros n e He. by apply markerOk_tests_agree, (Hm n).
Qed.

Lemma alive_marker_invariant_witness :
  part000 ∈ scripts
  ∧ reachable part000 (dispatch part000 (MouseDown (OnCol (0, 1)%nat)) booted)
  ∧ (∀ s' ev, markersOk (grid s') → markersOk (grid (dispatch part000 ev s')))
  ∧ markersOk (grid (dispatch part000 (MouseDown (OnCol (0, 1)%nat)) booted))
  ∧ (∀ n e, nodeAt (grid (dispatch part000 (MouseDown (OnCol (0, 1)%nat)) booted)) n
            = Some e → aliveTruthy e = aliveIsTrue e).
Proof.
  assert (Hsc : part000 ∈ scripts) by (unfold scripts; right; left).
  assert (Hs : reachable part000
                 (dispatch part000 (MouseDown (OnCol (0, 1)%nat)) booted)).
  { apply reach_step; [apply reach_boot | eexists; reflexivity]. }
  split; [exact Hsc |]. split; [exact Hs |].
  exact (alive_marker_invariant part000 _ Hsc Hs).
Defined.

(** What a mouse gesture does, in both scripts: the cell under the pointer
    is toggled by its own handler before the listener on [#grid] reads it,
    so a gesture that starts on a dead cell paints, one that starts on an
    alive cell erases, and every cell entered afterwards gets that state. *)
Lemma mouse_gesture_mode (sc : Script) (s : State) (n : NodeRef) e :
  sc ∈ scripts → nodeAt (grid s) n = Some e → markerOk e →
  let s1 := dispatch sc (MouseDown (OnCol n)) s in
  dragType s1 = Some (if aliveTruthy e then DRAG_delete else DRAG_add)
  ∧ ∀ m e1, nodeAt (grid s1) m = Some e1 →
      ∃ e2, nodeAt (grid (dispatch sc (MouseEnter m) s1)) m = Some e2
            ∧ aliveTruthy e2 = negb (aliveTruthy e).
Proof.
  intros Hsc He Hm s1.
  assert (Hdt : dragType s1
                = Some (if targetNotTrue (onmousedown n (grid s)) n
                        then DRAG_delete else DRAG_add)).
  { subst s1. cbn [dispatch]. unfold scripts in Hsc.
    apply elem_of_cons in Hsc as [-> | Hsc];
      [| apply list_elem_of_singleton in Hsc as ->]; reflexivity. }
  assert (Hnt : targetNotTrue (onmousedown n (grid s)) n = aliveTruthy e).
  { unfold targetNotTrue, onmousedown. rewrite He.
    rewrite (markerOk_tests_agree e Hm).
    destruct (aliveIsTrue e) eqn:Ha; unfold removeAlive, setAliveTrue;
      rewrite nodeAt_updateNode, decide_True, He by done; reflexivity. }
  rewrite Hnt in Hdt. split; [done |]. intros m e1 He1.
  cbn [dispatch]. unfold onmouseenter. rewrite Hdt.
  destruct (aliveTruthy e); cbn [grid withGrid];
    unfold removeAlive, setAliveTrue;
    rewrite nodeAt_updateNode, decide_True, He1 by done; by eexists.
Qed.

(** C5. A gesture that starts with a touch does not follow the claim. The
    cells have no touch listener, so the cell is not toggled before the
    listener on [#grid] reads it, and the test
    [dataset.alive !== 'true' ? delete : add] then gives the opposite mode:
    a touch that starts on the dead cell (0,0) enters delete mode, and the
    alive cell (0,1) entered afterwards becomes dead. A mouse gesture on
    the same dead cell enters add mode. *)
Theorem touch_gesture_enters_opposite_mode :
  Forall
    (λ sc,
       let s1 := dispatch sc MouseUp (dispatch sc (MouseDown (OnCol (0, 1)%nat)) booted) in
       let s2 := dispatch sc (TouchStart (OnCol (0, 0)%nat)) s1 in
       aliveAt (grid s1) 0 0 = false ∧ aliveAt (grid s1) 0 1 = true
       ∧ dragType s1 = None
       ∧ dragType s2 = Some DRAG_delete
       ∧ aliveAt (grid (dispatch sc (MouseEnter (0, 1)%nat) s2)) 0 1 = false
       ∧ dragType (dispatch sc (MouseDown (OnCol (0, 0)%nat)) s1) = Some DRAG_add)
    scripts.
Proof.
  unfold scripts. apply Forall_cons_2; [| apply Forall_cons_2; [| by apply Forall_nil_2]];
    vm_compute; repeat split; reflexivity.
Qed.

(** ** The clock: claims *)



Lemma pause_stops s : clockOk s → intervalId (pause s) = None ∧ intervals (pause s) = ∅.
Proof.
  intros [Hint _]. split; [done |]. cbn [pause intervals]. rewrite Hint.
  destruct (intervalId s); cbn [clearInterval]; set_solver.
Qed.



(** C8, as the claim states it, fails for [play] itself: called while the
    clock runs it starts a second interval and forgets the handle of the
    first, which [pause] can then no longer cancel. *)
Lemma play_twice_leaks_interval :
  let s := play (play booted) in
  size (intervals (play booted)) = 1%nat ∧ size (intervals s) = 2%nat
  ∧ intervalId (pause s) = None ∧ enabled (IntervalFires 1) (pause s).
Proof.
  cbv zeta. split_and!; vm_compute; reflexivity.
Qed.

(** C8, amended. [play] is only called by the click listener of the play
    button, and only when [intervalId] is undefined; a click while the
    clock runs calls [pause]. So in every reachable state the active
    intervals are exactly the one [intervalId] names, or none: a click on
    the button while stopped leaves one tick source, a click while running
    leaves none. [pause] on a stopped clock changes neither the clock nor
    the grid nor the drag mode, and after [pause] no interval is active, so
    no tick fires. *)
Theorem clock_has_at_most_one_source (sc : Script) (s : State) :
  sc ∈ scripts → reachable sc s →
  intervals s = match intervalId s with Some i => {[ i ]} | None => ∅ end
  ∧ (intervalId s = None →
       playBtnClick s = play s ∧ size (intervals (playBtnClick s)) = 1%nat)
  ∧ (is_Some (intervalId s) →
       size (intervals s) = 1%nat
       ∧ playBtnClick s = pause s ∧ intervals (playBtnClick s) = ∅)
  ∧ (intervalId s = None →
       intervalId (pause s) = None ∧ intervals (pause s) = intervals s
       ∧ grid (pause s) = grid s ∧ dragType (pause s) = dragType s)
  ∧ intervals (pause s) = ∅
  ∧ ∀ id, ¬ enabled (IntervalFires id) (pause s).
Proof.
  intros Hsc Hs. pose proof (reachable_clockOk sc s Hsc Hs) as Hck.
  destruct (pause_stops s Hck) as [Hpid Hpint].
  destruct Hck as [Hint Hnext]. split_and!; try done.
  - intros Hnone. unfold playBtnClick. rewrite Hnone. split; [done |].
    cbn [play intervals]. rewrite Hint, Hnone, union_empty_r_L.
    apply size_singleton.
  - intros [i Hi]. rewrite Hint, Hi. split; [apply size_singleton |].
    unfold playBtnClick. rewrite Hi. split; [done |].
    by rewrite Hpint.
  - intros Hnone. split_and!; try done. cbn [pause intervals].
    by rewrite Hnone.
  - intros id. cbn [enabled]. rewrite Hpint. set_solver.
Qed.

Lemma clock_has_at_most_one_source_witness :
  part000 ∈ scripts ∧ reachable part000 (running part000)
  ∧ intervals (running part000)
    = match intervalId (running part000) with Some i => {[ i ]} | None => ∅ end
  ∧ (intervalId (running part000) = None →
       playBtnClick (running part000) = play (running part000)
       ∧ size (intervals (playBtnClick (running part000))) = 1%nat)
  ∧ (is_Some (intervalId (running part000)) →
       size (intervals (running part000)) = 1%nat
       ∧ playBtnClick (running part000) = pause (running part000)
       ∧ intervals (playBtnClick (running part000)) = ∅)
  ∧ (intervalId (running part000) = None →
       intervalId (pause (running part000)) = None
       ∧ intervals (pause (running part000)) = intervals (running part000)
       ∧ grid (pause (running part000)) = grid (running part000)
       ∧ dragType (pause (running part000)) = dragType (running part000))
  ∧ intervals (pause (running part000)) = ∅
  ∧ ∀ id, ¬ enabled (IntervalFires id) (pause (running part000)).
Proof.
  assert (Hsc : part000 ∈ scripts) by (unfold scripts; right; left).
  assert (Hs : reachable part000 (running part000)).
  { apply reach_step; [apply reach_boot | exact I]. }
  split; [exact Hsc |]. split; [exact Hs |].
  exact (clock_has_at_most_one_source part000 (running part000) Hsc Hs).
Defined.

(** * Further properties of the code *)

(** ** The shape [initGrid] asks for *)

Lemma reqRowsOf_nonneg height : 0 ≤ height → 0 ≤ reqRowsOf height.
Proof. intros H. unfold reqRowsOf, CELL_DIMS. apply Z.div_pos; lia. Qed.

Lemma reqColsOf_nonneg width : 0 ≤ width → 0 ≤ reqColsOf width.
Proof.
  intros H. unfold reqColsOf, CELL_DIMS.
  pose proof (Z.div_mod (- (3 * width)) (2 * 32) ltac:(lia)).
  pose proof (Z.mod_pos_bound (- (3 * width)) (2 * 32) ltac:(lia)). lia.
Qed.

(** X1. The row count is the largest integer with [64 * rows <= 3 * height]
    and the column count the smallest with [3 * width <= 64 * cols]: rows
    are rounded down, columns up, and both grow with the window. *)
Theorem required_shape_bounds (height width : Z) :
  64 * reqRowsOf height ≤ 3 * height < 64 * (reqRowsOf height + 1)
  ∧ 64 * (reqColsOf width - 1) < 3 * width ≤ 64 * reqColsOf width
  ∧ (∀ height', height ≤ height' → reqRowsOf height ≤ reqRowsOf height')
  ∧ (∀ width', width ≤ width' → reqColsOf width ≤ reqColsOf width').
Proof.
  unfold reqRowsOf, reqColsOf, CELL_DIMS.
  pose proof (Z.div_mod (3 * height) (2 * 32) ltac:(lia)) as H1.
  pose proof (Z.mod_pos_bound (3 * height) (2 * 32) ltac:(lia)) as H2.
  pose proof (Z.div_mod (- (3 * width)) (2 * 32) ltac:(lia)) as H3.
  pose proof (Z.mod_pos_bound (- (3 * width)) (2 * 32) ltac:(lia)) as H4.
  split_and!; try lia.
  - intros height' Hle. apply Z.div_le_mono; lia.
  - intros width' Hle.
    assert ((- (3 * width')) `div` (2 * 32) ≤ (- (3 * width)) `div` (2 * 32))
      by (apply Z.div_le_mono; lia). lia.
Qed.

(** ** [initGrid] on any grid *)

(** A grid that already has the required shape is left as it is. *)
Lemma initGridDom_fixed (height width : Z) (g : Grid) :
  0 ≤ reqRowsOf height → 0 ≤ reqColsOf width →
  hasShape (Z.to_nat (reqRowsOf height)) (Z.to_nat (reqColsOf width)) g →
  initGridDom height width g = g.
Proof.
  intros Hr Hc [Hlen Hrows]. apply list_eq. intros i. unfold initGridDom.
  rewrite list_lookup_imap, lookup_reconcileRows by done.
  destruct (g !! i) as [row |] eqn:Hrow.
  - pose proof (lookup_lt_Some _ _ _ Hrow) as Hlt.
    rewrite decide_True by lia. cbn. f_equal.
    rewrite Forall_forall in Hrows.
    specialize (Hrows row (list_elem_of_lookup_2 _ _ _ Hrow)).
    apply list_eq. intros j. rewrite lookup_reconcileCols by done.
    destruct (row !! j) as [e |] eqn:He.
    + pose proof (lookup_lt_Some _ _ _ He). rewrite decide_True by lia. done.
    + apply lookup_ge_None in He. rewrite decide_False by lia. done.
  - apply lookup_ge_None in Hrow. rewrite decide_False by lia. done.
Qed.

(** X2. For a window that is not negative, [initGrid] gives the grid
    exactly the required number of rows, each of exactly the required number
    of cells, whatever the DOM was before (rows of different lengths
    included): inside the required rectangle a coordinate holds the cell
    that was there, or a new dead cell with the id of the place; outside it
    holds nothing. The ids stay in place. *)
Theorem initGrid_reconciles (height width : Z) (g : Grid) :
  0 ≤ height → 0 ≤ width →
  let g' := initGridDom height width g in
  hasShape (Z.to_nat (reqRowsOf height)) (Z.to_nat (reqColsOf width)) g'
  ∧ (∀ r c, cellAt g' r c
            = if decide (0 ≤ r < reqRowsOf height ∧ 0 ≤ c < reqColsOf width)
              then Some (default (newColumn r c) (cellAt g r c))
              else None)
  ∧ (wfGrid g → wfGrid g').
Proof.
  intros Hh Hw g'. pose proof (reqRowsOf_nonneg _ Hh). pose proof (reqColsOf_nonneg _ Hw).
  split_and!.
  - by apply hasShape_initGridDom.
  - intros r c. by apply cellAt_initGridDom.
  - apply wfGrid_initGridDom.
Qed.

Lemma initGrid_reconciles_witness :
  0 ≤ 43 ∧ 0 ≤ 64 ∧
  (let g' := initGridDom 43 64 ragged in
   hasShape (Z.to_nat (reqRowsOf 43)) (Z.to_nat (reqColsOf 64)) g'
   ∧ (∀ r c, cellAt g' r c
             = if decide (0 ≤ r < reqRowsOf 43 ∧ 0 ≤ c < reqColsOf 64)
               then Some (default (newColumn r c) (cellAt ragged r c))
               else None)
   ∧ (wfGrid ragged → wfGrid g')).
Proof.
  assert (H1 : 0 ≤ 43) by lia. assert (H2 : 0 ≤ 64) by lia.
  split; [exact H1 |]. split; [exact H2 |].
  exact (initGrid_reconciles 43 64 ragged H1 H2).
Defined.

(** X3. Resizing twice to the same window is the same as resizing once. *)
Theorem initGrid_idempotent (height width : Z) (g : Grid) :
  0 ≤ height → 0 ≤ width →
  initGridDom height width (initGridDom height width g)
  = initGridDom height width g.
Proof.
  intros Hh Hw. pose proof (reqRowsOf_nonneg _ Hh). pose proof (reqColsOf_nonneg _ Hw).
  apply initGridDom_fixed; [done.. |]. by apply hasShape_initGridDom.
Qed.

Lemma initGrid_idempotent_witness :
  0 ≤ 107 ∧ 0 ≤ 33 ∧
  initGridDom 107 33 (initGridDom 107 33 wide) = initGridDom 107 33 wide.
Proof.
  assert (H1 : 0 ≤ 107) by lia. assert (H2 : 0 ≤ 33) by lia.
  split; [exact H1 |]. split; [exact H2 |].
  exact (initGrid_idempotent 107 33 wide H1 H2).
Defined.

(** X4. A negative height. The required row count is then negative, and
    [slice(0, reqRows)] counts a negative end from the end of the list:
    [initGrid] drops the last [-reqRows] rows and adds none. The grid is
    left without rows exactly when it had no more rows than that;
    otherwise the rows before them stay, each in its place and brought to
    the required columns. *)
Theorem initGrid_negative_height (height width : Z) (g : Grid) :
  height < 0 →
  let k := Z.to_nat (- reqRowsOf height) in
  (0 < k)%nat
  ∧ length (initGridDom height width g) = (length g - k)%nat
  ∧ (initGridDom height width g = [] ↔ (length g ≤ k)%nat)
  ∧ ∀ i row, (i < length g - k)%nat → g !! i = Some row →
      initGridDom height width g !! i
      = Some (reconcileCols (reqColsOf width) i row).
Proof.
  intros Hh k.
  assert (Hneg : reqRowsOf height < 0).
  { unfold reqRowsOf, CELL_DIMS. apply Z.div_lt_upper_bound; lia. }
  assert (Hrec : reconcileRows (reqRowsOf height) g = take (length g - k) g).
  { unfold reconcileRows, sliceTo. rewrite decide_True by lia.
    rewrite decide_True by done. f_equal. lia. }
  assert (Hlen : length (initGridDom height width g) = (length g - k)%nat).
  { unfold initGridDom. rewrite length_imap, Hrec, length_take. lia. }
  split_and!.
  - subst k. lia.
  - exact Hlen.
  - rewrite <- length_zero_iff_nil, Hlen. lia.
  - intros i row Hi Hrow. unfold initGridDom.
    rewrite list_lookup_imap, Hrec, lookup_take_lt, Hrow by done. done.
Qed.

Lemma initGrid_negative_height_witness :
  -22 < 0
  ∧ let k := Z.to_nat (- reqRowsOf (-22)) in
    (0 < k)%nat
    ∧ length (initGridDom (-22) 65 glider) = (length glider - k)%nat
    ∧ (initGridDom (-22) 65 glider = [] ↔ (length glider ≤ k)%nat)
    ∧ ∀ i row, (i < length glider - k)%nat → glider !! i = Some row →
        initGridDom (-22) 65 glider !! i
        = Some (reconcileCols (reqColsOf 65) i row).
Proof.
  assert (H1 : -22 < 0) by lia. split; [exact H1 |].
  exact (initGrid_negative_height (-22) 65 glider H1).
Defined.

(** Computed: a height of -22 pixels asks for -2 rows. The four rows of
    [glider] become its first two, unchanged; the two rows of [wide] are
    both dropped. *)
Example negative_height_rows :
  reqRowsOf (-22) = -2
  ∧ initGridDom (-22) 65 glider = take 2 glider
  ∧ initGridDom (-22) 64 wide = [].
Proof. repeat split; vm_compute; reflexivity. Qed.

(** ** What keeps the shape and the ids of the grid *)

Lemma hasShape_updateNode f n rows cols (g : Grid) :
  hasShape rows cols g → hasShape rows cols (updateNode f n g).
Proof.
  intros [Hlen Hrows]. unfold updateNode. split; [by rewrite length_alter |].
  apply Forall_forall. intros row Hrow.
  apply list_elem_of_lookup in Hrow as [i Hi].
  rewrite list_lookup_alter in Hi. rewrite Forall_forall in Hrows.
  destruct (decide (n.1 = i)) as [<- | Hne].
  - apply fmap_Some in Hi as (row0 & Hrow0 & ->). rewrite length_alter.
    apply Hrows. by eapply list_elem_of_lookup_2.
  - apply Hrows. by eapply list_elem_of_lookup_2.
Qed.

Lemma ids_updateNode v n (g0 g : Grid) :
  (∀ m, node_id <$> nodeAt g m = node_id <$> nodeAt g0 m) →
  ∀ m, node_id <$> nodeAt (updateNode (withAlive v) n g) m
       = node_id <$> nodeAt g0 m.
Proof.
  intros Hg m. rewrite <- Hg, nodeAt_updateNode. case_decide as Hm; [| done].
  subst m. by destruct (nodeAt g n).
Qed.

Lemma hasShape_fmap_fmap (f : Element → Element) rows cols (g : Grid) :
  hasShape rows cols g →
  hasShape rows cols ((λ row : list Element, f <$> row) <$> g).
Proof.
  intros [Hlen Hrows]. split; [by rewrite length_fmap |].
  apply Forall_fmap. eapply Forall_impl; [exact Hrows |].
  intros row Hrow. cbn. by rewrite length_fmap.
Qed.

(** X5. Only a resize changes the structure of the grid. Every other
    event, in either script, leaves the rows, the row lengths and the ids
    as they are: the handlers and the generation step only write
    [data-alive], also when the step of game.js ends in a [TypeError]. *)
Theorem events_keep_shape_and_ids (sc : Script) (rows cols : nat) (s : State)
    (ev : Event) :
  sc ∈ scripts → hasShape rows cols (grid s) →
  (∀ height width, ev ≠ WindowResize height width) →
  hasShape rows cols (grid (dispatch sc ev s))
  ∧ ∀ n, node_id <$> nodeAt (grid (dispatch sc ev s)) n
         = node_id <$> nodeAt (grid s) n.
Proof.
  intros Hsc Hsh Hev.
  set (P := λ g' : Grid,
         hasShape rows cols g'
         ∧ ∀ n, node_id <$> nodeAt g' n = node_id <$> nodeAt (grid s) n).
  assert (Hupd : ∀ v n (g' : Grid),
             v = None ∨ v = Some "true"%string → P g' →
             P (updateNode (withAlive v) n g')).
  { intros v n g' _ [H1 H2]. split;
      [by apply hasShape_updateNode | by apply ids_updateNode]. }
  assert (Hg : P (grid s)) by done.
  change (P (grid (dispatch sc ev s))).
  destruct ev as [| | [n |] | | target | | n | height width | id];
    cbn [dispatch]; rewrite ?grid_onDrag by done.
  - by rewrite grid_playBtnClick.
  - unfold clearBtnClick. cbn [grid withGrid pause]. split.
    + by apply hasShape_fmap_fmap.
    + intros n. rewrite nodeAt_fmap_fmap.
      destruct (nodeAt (grid s) n) as [e |]; [| done]. cbn.
      by destruct (aliveTruthy e).
  - cbn [grid withGrid]. by apply (inv_onmousedown P Hupd).
  - done.
  - done.
  - done.
  - done.
  - unfold onmouseenter. destruct (dragType s) as [[] |]; cbn [grid withGrid];
      [by apply (inv_removeAlive P Hupd) | by apply (inv_setAliveTrue P Hupd)
      | done].
  - by destruct (Hev height width).
  - unfold tick. cbn [grid withGrid]. by apply (inv_render P Hupd).
Qed.

Lemma events_keep_shape_and_ids_witness :
  gameJs ∈ scripts ∧ hasShape 2 3 (grid (withGrid wide booted))
  ∧ (∀ height width, IntervalFires 1 ≠ WindowResize height width)
  ∧ hasShape 2 3 (grid (dispatch gameJs (IntervalFires 1) (withGrid wide booted)))
  ∧ ∀ n, node_id <$> nodeAt (grid (dispatch gameJs (IntervalFires 1)
                                     (withGrid wide booted))) n
         = node_id <$> nodeAt (grid (withGrid wide booted)) n.
Proof.
  assert (Hsc : gameJs ∈ scripts) by (unfold scripts; left).
  assert (Hsh : hasShape 2 3 (grid (withGrid wide booted)))
    by (split; [reflexivity | repeat constructor]).
  assert (Hev : ∀ height width, IntervalFires 1 ≠ WindowResize height width)
    by (intros height width; discriminate).
  split; [exact Hsc |]. split; [exact Hsh |]. split; [exact Hev |].
  exact (events_keep_shape_and_ids gameJs 2 3 _ _ Hsc Hsh Hev).
Defined.

(** ** game.js: where the scan goes and when the step throws *)

(** X6. On a grid of [rows] rows and [cols] columns the two loops of
    game.js produce every pair of [[0, cols) x [0, rows)] exactly once: the
    first index, used as the row of the id, runs over the columns' range.
    The pairs are the coordinates of the grid's cells exactly when the grid
    is square (or has no cell at all). *)
Theorem scan_is_the_transposed_rectangle (rows cols : nat) (g : Grid) :
  hasShape rows cols g → (0 < rows)%nat →
  NoDup (GameJs.scanned g)
  ∧ (∀ r c, (r, c) ∈ GameJs.scanned g ↔
            0 ≤ r < Z.of_nat cols ∧ 0 ≤ c < Z.of_nat rows)
  ∧ ((∀ r c, (r, c) ∈ GameJs.scanned g ↔ is_Some (cellAt g r c))
     ↔ rows = cols ∨ cols = 0%nat).
Proof.
  intros Hsh Hpos.
  assert (Hscan : ∀ r c, (r, c) ∈ GameJs.scanned g ↔
                         0 ≤ r < Z.of_nat cols ∧ 0 ≤ c < Z.of_nat rows).
  { intros r c. by apply elem_of_scanned. }
  split_and!; [| done |].
  - destruct g as [| row0 g0]; [apply NoDup_nil_2 |]. apply NoDup_loopIndices.
  - split.
    + intros Hall. destruct (decide (rows = cols)) as [| Hne]; [by left |].
      destruct (decide (cols = 0%nat)) as [| Hc0]; [by right |]. exfalso.
      destruct (decide (rows < cols)%nat) as [Hlt | Hge].
      * assert (Hin : (Z.of_nat rows, 0) ∈ GameJs.scanned g) by (apply Hscan; lia).
        apply Hall, (cellAt_hasShape rows cols) in Hin; [lia | done].
      * assert (Hc : is_Some (cellAt g (Z.of_nat cols) 0)).
        { apply (cellAt_hasShape rows cols); [done | lia]. }
        apply Hall, Hscan in Hc. lia.
    + intros [<- | ->] r c.
      * rewrite Hscan, (cellAt_hasShape rows rows) by done. lia.
      * rewrite Hscan, (cellAt_hasShape rows 0) by done. lia.
Qed.

Lemma scan_is_the_transposed_rectangle_witness :
  hasShape 2 3 wide ∧ (0 < 2)%nat
  ∧ NoDup (GameJs.scanned wide)
  ∧ (∀ r c, (r, c) ∈ GameJs.scanned wide ↔
            0 ≤ r < Z.of_nat 3 ∧ 0 ≤ c < Z.of_nat 2)
  ∧ ((∀ r c, (r, c) ∈ GameJs.scanned wide ↔ is_Some (cellAt wide r c))
     ↔ 2%nat = 3%nat ∨ 3%nat = 0%nat).
Proof.
  assert (Hsh : hasShape 2 3 wide) by (split; [reflexivity | repeat constructor]).
  assert (Hpos : (0 < 2)%nat) by lia.
  split; [exact Hsh |]. split; [exact Hpos |].
  exact (scan_is_the_transposed_rectangle 2 3 wide Hsh Hpos).
Defined.

Lemma applyLists_Throw_iff (l : Lists) (g : Grid) :
  (∃ e g', applyLists l g = Throw e g') ↔
  None ∈ nodesToKill l ∨ None ∈ nodesToResurrect l.
Proof.
  split.
  - intros (e & g' & Hthrow).
    destruct (decide (None ∈ nodesToKill l)) as [| Hk]; [by left |].
    destruct (decide (None ∈ nodesToResurrect l)) as [| Hr]; [by right |].
    destruct (applyLists_Normal l g Hk Hr) as [g'' Hn]. congruence.
  - unfold applyLists. intros [Hk | Hr].
    + destruct (forOf_Throw removeAlive _ g Hk) as [g' ->]. by eexists _, _.
    + destruct (decide (None ∈ nodesToKill l)) as [Hk | Hk].
      * destruct (forOf_Throw removeAlive _ g Hk) as [g' ->]. by eexists _, _.
      * rewrite (forOf_Normal _ _ _ Hk).
        edestruct (forOf_Throw setAliveTrue) as [g' ->]; [done |]. by eexists _, _.
Qed.

Lemma cellAt_applyLists_None (l : Lists) (g g' : Grid) r c :
  applyLists l g = Normal g' → cellAt g r c = None → cellAt g' r c = None.
Proof.
  unfold cellAt. intros Happ. case_decide; [| done]. intros Hnone.
  rewrite (applyLists_nodeAt _ _ _ _ Happ), Hnone. by repeat case_decide.
Qed.

(** X7. On a square, well-formed grid with at least one row the step of
    game.js runs to its end and computes the next generation of the whole
    grid: every cell is alive afterwards exactly when B3/S23 says so for its
    state and its alive neighbours before the step, and there is still
    nothing outside the grid. *)
Theorem gameJs_square_next_generation (n : nat) (g : Grid) :
  wfGrid g → hasShape n n g → (0 < n)%nat →
  ∃ g', GameJs.render g = Normal g'
        ∧ ∀ r c, aliveAt g' r c
                 = if decide (0 ≤ r < Z.of_nat n ∧ 0 ≤ c < Z.of_nat n)
                   then lifeRule (aliveAt g r c) (aliveNeighborCount g r c)
                   else false.
Proof.
  intros Hwf Hsh Hpos. destruct (GameJs_render_square n g Hwf Hsh Hpos) as [g' Hr].
  exists g'. split; [done |]. intros r c. case_decide as Hin.
  - assert (is_Some (cellAt g r c)) as [e He]
      by (apply (cellAt_hasShape n n); [done | lia]).
    rewrite (GameJs_render_cell g g' r c e Hwf Hr He).
    rewrite decide_True; [done |]. apply (elem_of_scanned n n); [done.. | lia].
  - assert (Hnone : cellAt g r c = None).
    { destruct (cellAt g r c) as [e |] eqn:He; [| done].
      pose proof (cellAt_hasShape_Some _ _ _ _ _ _ Hsh He). lia. }
    unfold GameJs.render in Hr. destruct g as [| row0 g0]; [done |].
    unfold aliveAt. by rewrite (cellAt_applyLists_None _ _ _ _ _ Hr Hnone).
Qed.

Lemma gameJs_square_next_generation_witness :
  wfGrid glider ∧ hasShape 4 4 glider ∧ (0 < 4)%nat
  ∧ ∃ g', GameJs.render glider = Normal g'
          ∧ ∀ r c, aliveAt g' r c
                   = if decide (0 ≤ r < Z.of_nat 4 ∧ 0 ≤ c < Z.of_nat 4)
                     then lifeRule (aliveAt glider r c)
                            (aliveNeighborCount glider r c)
                     else false.
Proof.
  assert (Hwf : wfGrid glider) by (apply wfGridb_spec; vm_compute; reflexivity).
  assert (Hsh : hasShape 4 4 glider) by (split; [reflexivity | repeat constructor]).
  assert (Hpos : (0 < 4)%nat) by lia.
  split; [exact Hwf |]. split; [exact Hsh |]. split; [exact Hpos |].
  exact (gameJs_square_next_generation 4 glider Hwf Hsh Hpos).
Defined.

(** X8. When the step of game.js throws. On a well-formed grid of [rows]
    rows and [cols] columns, [render] is left by a [TypeError] exactly when
    the grid has no row, or the scan meets a coordinate that has no cell and
    exactly three alive neighbours: [null] then goes into
    [nodesToResurrect]. *)
Theorem gameJs_render_throws_iff (rows cols : nat) (g : Grid) :
  wfGrid g → hasShape rows cols g →
  (∃ e g', GameJs.render g = Throw e g') ↔
  rows = 0%nat
  ∨ ∃ r c, 0 ≤ r < Z.of_nat cols ∧ 0 ≤ c < Z.of_nat rows
           ∧ cellAt g r c = None ∧ aliveNeighborCount g r c = 3%nat.
Proof.
  intros Hwf Hsh. destruct (decide (rows = 0%nat)) as [-> | Hpos].
  { destruct Hsh as [Hlen _]. destruct g; [| done]. split; [by left |].
    intros _. by eexists _, _. }
  assert (Hscan : ∀ r c, (r, c) ∈ GameJs.scanned g ↔
                         0 ≤ r < Z.of_nat cols ∧ 0 ≤ c < Z.of_nat rows).
  { intros r c. apply elem_of_scanned; [done | lia]. }
  assert (Hr : GameJs.render g = applyLists (GameJs.collect g) g).
  { unfold GameJs.render. destruct g; [| done].
    destruct Hsh as [Hlen _]. simpl in Hlen. lia. }
  rewrite Hr, applyLists_Throw_iff. unfold GameJs.collect.
  rewrite foldl_visit_kill, foldl_visit_resurrect.
  cbn [nodesToKill nodesToResurrect]. rewrite !elem_of_nil. split.
  - intros [[[] | (rc & _ & _ & Ha & _)] | [[] | ([r c] & Hin & Hnode & _ & Hn)]];
      [done |]. right. cbn [fst snd] in *. exists r, c.
    apply Hscan in Hin. rewrite aliveNeighbors_wf in Hn by done.
    symmetry in Hnode. rewrite getNode_wf in Hnode by done.
    apply fmap_None in Hnode. tauto.
  - intros [? | (r & c & Hr1 & Hc1 & Hnone & Hn)]; [done |]. right. right.
    exists (r, c). cbn [fst snd]. rewrite aliveNeighbors_wf by done.
    rewrite getNode_wf, Hnone by done. split_and!; try done. by apply Hscan.
Qed.

Lemma gameJs_render_throws_iff_witness :
  wfGrid wide ∧ hasShape 2 3 wide
  ∧ ((∃ e g', GameJs.render wide = Throw e g') ↔
     2%nat = 0%nat
     ∨ ∃ r c, 0 ≤ r < Z.of_nat 3 ∧ 0 ≤ c < Z.of_nat 2
              ∧ cellAt wide r c = None ∧ aliveNeighborCount wide r c = 3%nat).
Proof.
  assert (Hwf : wfGrid wide) by (apply wfGridb_spec; vm_compute; reflexivity).
  assert (Hsh : hasShape 2 3 wide) by (split; [reflexivity | repeat constructor]).
  split; [exact Hwf |]. split; [exact Hsh |].
  exact (gameJs_render_throws_iff 2 3 wide Hwf Hsh).
Defined.

(** ** part_000: what the walk evaluates *)

Lemma checkWith_seen (g : Grid)
    (inner : NodeRef → Part000.CheckState → Part000.CheckState)
    (node : NodeRef) (recurse : bool) (st : Part000.CheckState) :
  (∀ cell st', Part000.seen st' ⊆ Part000.seen (inner cell st')) →
  Part000.seen st ⊆ Part000.seen (Part000.checkWith g inner node recurse st)
  ∧ Part000.idOf g node ∈ Part000.seen (Part000.checkWith g inner node recurse st).
Proof.
  intros Hinner.
  destruct (decide (Part000.idOf g node ∈ Part000.seen st)) as [Hseen | Hfresh].
  { unfold Part000.checkWith. by rewrite decide_True. }
  destruct (checkWith_fresh g inner node recurse st Hfresh) as (Hs & _ & _).
  cbv zeta in Hs. rewrite Hs. clear Hs. split; [| set_solver].
  transitivity (Part000.seen
    (if recurse
     then foldl (λ st cell, inner cell st) st
            (omap (λ n : option NodeRef, n)
               (neighborsNum g
                  (Number (split "-" (Part000.idOf g node) !! 0%nat))
                  (Number (split "-" (Part000.idOf g node) !! 1%nat))))
     else st)); [| set_solver].
  destruct recurse; [| done].
  apply (foldl_inv (λ s, Part000.seen st ⊆ Part000.seen s) (λ _, True));
    [| by apply Forall_true | done].
  intros s x _ Hs. etransitivity; [exact Hs | apply Hinner].
Qed.

Lemma check_seen (g : Grid) node recurse st :
  Part000.seen st ⊆ Part000.seen (Part000.check g node recurse st)
  ∧ Part000.idOf g node ∈ Part000.seen (Part000.check g node recurse st).
Proof.
  apply checkWith_seen. intros cell st'. unfold Part000.checkCell.
  by apply checkWith_seen.
Qed.

Lemma foldl_check_seen (g : Grid) (l : list NodeRef) st :
  Part000.seen st
    ⊆ Part000.seen (foldl (λ st node, Part000.check g node true st) st l)
  ∧ ∀ node, node ∈ l →
      Part000.idOf g node
        ∈ Part000.seen (foldl (λ st node, Part000.check g node true st) st l).
Proof.
  revert st. induction l as [| x l IH]; intros st; cbn [foldl].
  - split; [done |]. by intros node ?%elem_of_nil.
  - destruct (IH (Part000.check g x true st)) as [Hsub Hin].
    destruct (check_seen g x true st) as [Hsub' Hx]. split.
    + by etransitivity.
    + intros node [-> | Hn]%elem_of_cons; [by apply Hsub | by apply Hin].
Qed.

(** Every cell that carries [data-alive] is evaluated. *)
Lemma alive_cells_seen (g : Grid) n e :
  nodeAt g n = Some e → is_Some (data_alive e) →
  node_id e ∈ Part000.seen (Part000.collect g).
Proof.
  intros He Hd. unfold Part000.collect.
  destruct (foldl_check_seen g (Part000.querySelectorAllAlive g)
              (Part000.mkCheckState ∅ (mkLists [] []))) as [_ Hin].
  specialize (Hin n). unfold Part000.idOf in Hin. rewrite He in Hin.
  apply Hin. unfold Part000.querySelectorAllAlive.
  apply list_elem_of_fmap. exists (n, e). split; [done |].
  apply list_elem_of_In, List.filter_In. split.
  - by apply list_elem_of_In, elem_of_cells.
  - by apply bool_decide_eq_true.
Qed.

(** X9. The step of part_000 never throws, whatever the DOM: only handles
    of existing nodes are pushed to the two arrays. On a grid without rows,
    where game.js throws, it does nothing. *)
Theorem part000_render_never_throws (g : Grid) :
  (∃ g', Part000.render g = Normal g')
  ∧ (∀ e g', Part000.render g ≠ Throw e g')
  ∧ Part000.render [] = Normal [].
Proof.
  destruct (Part000_render_Normal g) as [g' Hr]. split_and!.
  - by exists g'.
  - intros e g''. by rewrite Hr.
  - reflexivity.
Qed.

(** X10. What the walk of part_000 can get wrong is only a birth it misses.
    On a well-formed grid every cell that is alive before the step is
    evaluated and ends as B3/S23 says, and a cell that is alive after the
    step is one that B3/S23 makes alive: no cell survives, dies or is born
    against the rule. *)
Theorem part000_misses_only_births (g : Grid) (r c : Z) (e : Element) :
  wfGrid g → cellAt g r c = Some e →
  let g' := domOf (Part000.render g) in
  (aliveAt g r c = true →
     aliveAt g' r c = lifeRule true (aliveNeighborCount g r c))
  ∧ (aliveAt g' r c = true →
       lifeRule (aliveAt g r c) (aliveNeighborCount g r c) = true).
Proof.
  intros Hwf He g'. destruct (Part000_render_Normal g) as [g1 Hr].
  subst g'. rewrite Hr. cbn [domOf].
  pose proof (Part000_render_cell g g1 r c e Hwf Hr He) as Hcell.
  assert (Hseen : aliveAt g r c = true →
                  cellId r c ∈ Part000.seen (Part000.collect g)).
  { intros Ha. apply cellAt_Some_nonneg in He as (Hr0 & Hc0 & He').
    pose proof (Hwf _ _ He') as Hid. cbn [fst snd] in Hid.
    rewrite !Z2Nat.id in Hid by done. rewrite <- Hid.
    apply (alive_cells_seen g _ e He').
    unfold aliveAt, cellAt in Ha. rewrite decide_True, He' in Ha by done.
    unfold aliveTruthy in Ha. destruct (data_alive e); [by eexists | done]. }
  split.
  - intros Ha. rewrite Hcell, Ha. by rewrite decide_True by auto.
  - intros Ha. rewrite Hcell in Ha. case_decide as Hs; [done |].
    by destruct Hs; auto.
Qed.

Lemma part000_misses_only_births_witness :
  wfGrid glider
  ∧ cellAt glider 2 1 = Some (withAlive (Some "true"%string) (newColumn 2 1))
  ∧ (let g' := domOf (Part000.render glider) in
     (aliveAt glider 2 1 = true →
        aliveAt g' 2 1 = lifeRule true (aliveNeighborCount glider 2 1))
     ∧ (aliveAt g' 2 1 = true →
          lifeRule (aliveAt glider 2 1) (aliveNeighborCount glider 2 1) = true)).
Proof.
  assert (Hwf : wfGrid glider) by (apply wfGridb_spec; vm_compute; reflexivity).
  split; [exact Hwf |]. split; [reflexivity |].
  exact (part000_misses_only_births glider 2 1 _ Hwf eq_refl).
Defined.

(** ** A grid without alive cells *)

Lemma allDead_getIsNodeAlive (g : Grid) x : allDead g → getIsNodeAlive g x = false.
Proof.
  intros Hd. destruct x as [n |]; [| done]. unfold getIsNodeAlive.
  destruct (nodeAt g n) as [e |] eqn:He; [by eapply Hd | done].
Qed.

Lemma filter_all_false {A} (f : A → bool) (l : list A) :
  (∀ x, f x = false) → List.filter f l = [].
Proof.
  intros Hf. induction l as [| x l IH]; [done |]. cbn [List.filter].
  by rewrite Hf.
Qed.

Lemma allDead_visit (g : Grid) r c l : allDead g → GameJs.visit g r c l = l.
Proof.
  intros Hd. unfold GameJs.visit.
  rewrite allDead_getIsNodeAlive by done.
  rewrite filter_all_false by (intros x; by apply allDead_getIsNodeAlive).
  by rewrite decide_False.
Qed.

Lemma allDead_checkWith (g : Grid)
    (inner : NodeRef → Part000.CheckState → Part000.CheckState)
    (node : NodeRef) (recurse : bool) (st : Part000.CheckState) :
  allDead g →
  (∀ cell st', Part000.lists (inner cell st') = Part000.lists st') →
  Part000.lists (Part000.checkWith g inner node recurse st) = Part000.lists st.
Proof.
  intros Hd Hinner.
  destruct (decide (Part000.idOf g node ∈ Part000.seen st)) as [Hseen | Hfresh].
  { unfold Part000.checkWith. by rewrite decide_True. }
  destruct (checkWith_fresh g inner node recurse st Hfresh) as (_ & Hk & Hr).
  cbv zeta in Hk, Hr.
  rewrite allDead_getIsNodeAlive in Hk, Hr by done.
  rewrite filter_all_false in Hr
    by (intros x; by apply allDead_getIsNodeAlive).
  rewrite bool_decide_false in Hr by done.
  cbn [andb negb] in Hk, Hr. rewrite app_nil_r in Hk, Hr.
  assert (Hst1 : Part000.lists
            (if recurse
             then foldl (λ st cell, inner cell st) st
                    (omap (λ n : option NodeRef, n)
                       (neighborsNum g
                          (Number (split "-" (Part000.idOf g node) !! 0%nat))
                          (Number (split "-" (Part000.idOf g node) !! 1%nat))))
             else st) = Part000.lists st).
  { destruct recurse; [| done].
    apply (foldl_inv (λ s, Part000.lists s = Part000.lists st) (λ _, True));
      [| by apply Forall_true | done].
    intros s x _ Hs. by rewrite Hinner. }
  rewrite Hst1 in Hk, Hr.
  destruct (Part000.lists (Part000.checkWith g inner node recurse st)),
    (Part000.lists st). cbn in *. by subst.
Qed.

(** X11. A grid without alive cells is a fixed point of the step: either
    script leaves the DOM exactly as it is (game.js provided the grid has a
    row). No assumption on ids or on the shape is needed, and cells whose
    [data-alive] is the empty string, which part_000 visits, count as
    dead. *)
Theorem dead_grid_is_stable (g : Grid) :
  allDead g →
  Part000.render g = Normal g ∧ (g ≠ [] → GameJs.render g = Normal g).
Proof.
  intros Hd. split.
  - unfold Part000.render.
    assert (Hl : Part000.lists (Part000.collect g) = mkLists [] []).
    { unfold Part000.collect.
      apply (foldl_inv (λ s, Part000.lists s = mkLists [] []) (λ _, True));
        [| by apply Forall_true | done].
      intros s x _ Hs. unfold Part000.check.
      rewrite allDead_checkWith; [done.. |].
      intros cell st'. unfold Part000.checkCell. by rewrite allDead_checkWith. }
    by rewrite Hl.
  - intros Hne. unfold GameJs.render. destruct g as [| row0 g0]; [done |].
    assert (Hl : GameJs.collect (row0 :: g0) = mkLists [] []).
    { unfold GameJs.collect.
      apply (foldl_inv (λ l, l = mkLists [] []) (λ _, True));
        [| by apply Forall_true | done].
      intros l rc _ ->. by apply allDead_visit. }
    by rewrite Hl.
Qed.

Lemma dead_grid_is_stable_witness :
  allDead ragged
  ∧ Part000.render ragged = Normal ragged
  ∧ (ragged ≠ [] → GameJs.render ragged = Normal ragged).
Proof.
  assert (Hd : allDead ragged).
  { intros [[| [| i]] [| [| [| j]]]] e; cbn; intros [= <-]; reflexivity. }
  split; [exact Hd |]. exact (dead_grid_is_stable ragged Hd).
Defined.

(** ** part_000 on alive cells that do not touch *)

(** The nodes around a node, as [check] finds them on a well-formed grid. *)
Lemma check_neighborsArr (g : Grid) m e :
  wfGrid g → nodeAt g m = Some e →
  omap (λ n : option NodeRef, n)
    (neighborsNum g (Number (split "-" (Part000.idOf g m) !! 0%nat))
       (Number (split "-" (Part000.idOf g m) !! 1%nat)))
  = omap (λ n : option NodeRef, n) (neighbors g (Z.of_nat m.1) (Z.of_nat m.2)).
Proof.
  intros Hwf He. destruct (check_coords g m e Hwf He) as (_ & -> & ->). done.
Qed.

Lemma checkCell_seen_iff (g : Grid) n st x :
  x ∈ Part000.seen (Part000.checkCell g n st) ↔
  x = Part000.idOf g n ∨ x ∈ Part000.seen st.
Proof.
  unfold Part000.checkCell.
  destruct (decide (Part000.idOf g n ∈ Part000.seen st)) as [Hseen | Hfresh].
  - unfold Part000.checkWith. rewrite decide_True by done. naive_solver.
  - destruct (checkWith_fresh g (λ _ st', st') n false st Hfresh) as (Hs & _ & _).
    cbv zeta in Hs. rewrite Hs. set_solver.
Qed.

Lemma foldl_checkCell_seen_iff (g : Grid) (l : list NodeRef) st x :
  x ∈ Part000.seen (foldl (λ st cell, Part000.checkCell g cell st) st l) ↔
  x ∈ Part000.seen st ∨ ∃ n, n ∈ l ∧ x = Part000.idOf g n.
Proof.
  revert st. induction l as [| n l IH]; intros st; cbn [foldl].
  - split; [by left |]. intros [? | (n & []%elem_of_nil & _)]. done.
  - rewrite IH, checkCell_seen_iff. setoid_rewrite elem_of_cons. split.
    + intros [[-> | ?] | (n' & ? & ?)]; eauto 6.
    + intros [? | (n' & [-> | ?] & ->)]; eauto 6.
Qed.

(** [check(node, true)]: which ids are in [seen] afterwards. *)
Lemma check_seen_iff (g : Grid) m e st x :
  wfGrid g → nodeAt g m = Some e →
  x ∈ Part000.seen (Part000.check g m true st) ↔
  x ∈ Part000.seen st
  ∨ ((node_id e ∉ Part000.seen st)
     ∧ (x = node_id e
        ∨ ∃ n, n ∈ omap (λ n : option NodeRef, n)
                     (neighbors g (Z.of_nat m.1) (Z.of_nat m.2))
               ∧ x = Part000.idOf g n)).
Proof.
  intros Hwf He.
  assert (Hid : Part000.idOf g m = node_id e) by (unfold Part000.idOf; by rewrite He).
  unfold Part000.check.
  destruct (decide (Part000.idOf g m ∈ Part000.seen st)) as [Hseen | Hfresh].
  - unfold Part000.checkWith. rewrite decide_True by done.
    rewrite Hid in Hseen. naive_solver.
  - destruct (checkWith_fresh g (Part000.checkCell g) m true st Hfresh)
      as (Hs & _ & _).
    cbv zeta in Hs. rewrite Hs, (check_neighborsArr g m e Hwf He).
    rewrite elem_of_union, elem_of_singleton, foldl_checkCell_seen_iff.
    rewrite Hid in *. naive_solver.
Qed.

(** A node next to an alive node makes that node's count positive. *)
Lemma alive_neighbour_counts (g : Grid) m n :
  wfGrid g →
  n ∈ omap (λ n : option NodeRef, n) (neighbors g (Z.of_nat m.1) (Z.of_nat m.2)) →
  getIsNodeAlive g (Some n) = true →
  aliveNeighborCount g (Z.of_nat m.1) (Z.of_nat m.2) ≠ 0%nat.
Proof.
  intros Hwf Hn Ha. rewrite <- aliveNeighbors_wf, <- filter_omap_alive by done.
  assert (Hin : n ∈ List.filter (λ n, getIsNodeAlive g (Some n))
                  (omap (λ n : option NodeRef, n)
                     (neighbors g (Z.of_nat m.1) (Z.of_nat m.2)))).
  { apply list_elem_of_In, List.filter_In. split; [by apply list_elem_of_In | done]. }
  intros Hlen. apply length_zero_iff_nil in Hlen. rewrite Hlen in Hin.
  by apply elem_of_nil in Hin.
Qed.

(** If a cell is a neighbour of a coordinate, the coordinate's cell is a
    neighbour of that cell. *)
Lemma neighbour_symmetric (g : Grid) r c e (d : Z * Z) e' :
  wfGrid g → cellAt g r c = Some e → d ∈ offsets →
  cellAt g (r + d.1) (c + d.2) = Some e' →
  (Z.to_nat r, Z.to_nat c)
    ∈ omap (λ n : option NodeRef, n)
        (neighbors g (Z.of_nat (Z.to_nat (r + d.1))) (Z.of_nat (Z.to_nat (c + d.2)))).
Proof.
  intros Hwf He Hd He'. apply elem_of_omap_id.
  apply cellAt_Some_nonneg in He' as Hpos. destruct Hpos as (Hr & Hc & _).
  rewrite !Z2Nat.id by done. rewrite neighbors_offsets.
  apply list_elem_of_fmap. exists (- d.1, - d.2). cbn [fst snd]. split.
  - replace (r + d.1 + - d.1) with r by lia.
    replace (c + d.2 + - d.2) with c by lia.
    symmetry. by eapply getNode_wf_Some.
  - unfold offsets in *. destruct d as [d1 d2].
    repeat (apply elem_of_cons in Hd as [[= -> ->] | Hd]; [set_solver |]).
    by apply elem_of_nil in Hd.
Qed.

Lemma count_positive_neighbour (g : Grid) r c :
  aliveNeighborCount g r c ≠ 0%nat →
  ∃ d, d ∈ offsets ∧ aliveAt g (r + d.1) (c + d.2) = true.
Proof.
  unfold aliveNeighborCount. intros Hlen.
  destruct (List.filter _ offsets) as [| d l] eqn:Hf; [done |].
  assert (Hin : In d (List.filter (λ d, aliveAt g (r + d.1) (c + d.2)) offsets))
    by (rewrite Hf; by left).
  apply List.filter_In in Hin as [Hin Ha]. exists d.
  split; [by apply list_elem_of_In | done].
Qed.

(** What the walk has seen after any number of alive cells, when alive
    cells do not touch: each of them and all the nodes around it. *)
Lemma isolated_walk (g : Grid) (l : list NodeRef) :
  wfGrid g → isolated g →
  Forall (λ m, ∃ e, nodeAt g m = Some e ∧ aliveTruthy e = true) l →
  let st := foldl (λ st node, Part000.check g node true st)
              (Part000.mkCheckState ∅ (mkLists [] [])) l in
  (∀ x, x ∈ Part000.seen st →
        ∃ m, m ∈ l ∧ (x = Part000.idOf g m
                      ∨ ∃ n, n ∈ omap (λ n : option NodeRef, n)
                                   (neighbors g (Z.of_nat m.1) (Z.of_nat m.2))
                             ∧ x = Part000.idOf g n))
  ∧ (∀ m, m ∈ l →
       Part000.idOf g m ∈ Part000.seen st
       ∧ ∀ n, n ∈ omap (λ n : option NodeRef, n)
                    (neighbors g (Z.of_nat m.1) (Z.of_nat m.2)) →
              Part000.idOf g n ∈ Part000.seen st).
Proof.
  intros Hwf Hiso. induction l as [| m l IH] using rev_ind; intros Hl st.
  - subst st. cbn. split; [set_solver |]. by intros m ?%elem_of_nil.
  - apply Forall_app in Hl as [Hl Hm].
    apply Forall_singleton in Hm as (e & He & Ha).
    specialize (IH Hl). cbv zeta in IH. destruct IH as [IH1 IH2].
    subst st. rewrite foldl_app. cbn [foldl].
    set (st0 := foldl (λ st node, Part000.check g node true st)
                  (Part000.mkCheckState ∅ (mkLists [] [])) l) in *.
    assert (Hid : Part000.idOf g m = node_id e)
      by (unfold Part000.idOf; by rewrite He).
    assert (Hcases : node_id e ∈ Part000.seen st0 → m ∈ l).
    { intros Hseen. destruct (IH1 _ Hseen) as (m' & Hm' & [Hx | (n & Hn & Hx)]).
      - assert (m' = m) as -> ; [| done].
        destruct (IH2 m' Hm') as [_ _].
        rewrite Forall_forall in Hl. destruct (Hl m' Hm') as (e' & He' & _).
        unfold Part000.idOf in Hx. rewrite He' in Hx.
        rewrite (Hwf _ _ He), (Hwf _ _ He') in Hx.
        apply cellId_inj in Hx as [? ?]. destruct m, m'. cbn in *. f_equal; lia.
      - exfalso.
        assert (Hval : is_Some (nodeAt g n)).
        { pose proof (neighborsArr_valid g (Some (Z.of_nat m'.1)) (Some (Z.of_nat m'.2)))
            as Hv. rewrite Forall_forall in Hv. by apply Hv. }
        destruct Hval as [en Hen].
        assert (n = m) as ->.
        { unfold Part000.idOf in Hx. rewrite Hen in Hx.
          rewrite (Hwf _ _ He), (Hwf _ _ Hen) in Hx.
          apply cellId_inj in Hx as [? ?]. destruct m, n. cbn in *. f_equal; lia. }
        rewrite Forall_forall in Hl. destruct (Hl m' Hm') as (e' & He' & Ha').
        apply (alive_neighbour_counts g m' m Hwf Hn).
        + unfold getIsNodeAlive. by rewrite He.
        + apply Hiso. unfold aliveAt, cellAt. rewrite decide_True by lia.
          rewrite !Nat2Z.id. destruct m'. cbn [fst snd]. by rewrite He'. }
    split.
    + intros x. rewrite (check_seen_iff g m e st0 x Hwf He).
      intros [Hx | (_ & [-> | (n & Hn & ->)])].
      * destruct (IH1 x Hx) as (m' & Hm' & Hc). exists m'.
        split; [apply elem_of_app; by left | done].
      * exists m. split; [apply elem_of_app; right; by apply list_elem_of_singleton |].
        left. by rewrite Hid.
      * exists m. split; [apply elem_of_app; right; by apply list_elem_of_singleton |].
        right. by exists n.
    + intros m' Hm'.
      assert (Hmono : ∀ x, x ∈ Part000.seen st0 →
                           x ∈ Part000.seen (Part000.check g m true st0)).
      { intros x Hx. apply (check_seen_iff g m e st0 x Hwf He). by left. }
      apply elem_of_app in Hm' as [Hm' | ->%list_elem_of_singleton].
      * destruct (IH2 m' Hm') as [H1 H2]. split; [by apply Hmono |].
        intros n Hn. by apply Hmono, H2.
      * destruct (decide (node_id e ∈ Part000.seen st0)) as [Hseen | Hfresh].
        -- destruct (IH2 m (Hcases Hseen)) as [H1 H2].
           split; [by apply Hmono |]. intros n Hn. by apply Hmono, H2.
        -- split.
           ++ apply (check_seen_iff g m e st0 _ Hwf He). right.
              split; [done |]. left. done.
           ++ intros n Hn. apply (check_seen_iff g m e st0 _ Hwf He). right.
              split; [done |]. right. by exists n.
Qed.

Lemma isolatedb_spec (g : Grid) : isolatedb g = true → isolated g.
Proof.
  unfold isolatedb, isolated. rewrite forallb_forall. intros H r c Ha.
  unfold aliveAt in Ha. destruct (cellAt g r c) as [e |] eqn:He; [| done].
  apply cellAt_Some_nonneg in He as (Hr & Hc & He).
  apply elem_of_cells, list_elem_of_In, H in He. cbn [fst snd] in He.
  rewrite Ha, !Z2Nat.id in He by done. cbn [implb] in He.
  by apply bool_decide_eq_true in He.
Qed.

Lemma domOk_clickAll (ns : list NodeRef) (g : Grid) :
  domOk g → domOk (clickAll ns g).
Proof.
  intros Hg. induction ns as [| n ns IH]; [done |].
  destruct IH as [Hwf Hmk]. unfold clickAll. cbn [foldr].
  fold (clickAll ns g). split.
  - apply (inv_onmousedown wfGrid); [| done].
    intros v m g' _. apply wfGrid_updateNode.
  - apply (inv_onmousedown markersOk); [| done].
    apply markersOk_updateNode.
Qed.

Lemma domOk_initGridDom (height width : Z) : domOk (initGridDom height width []).
Proof.
  split.
  - apply wfGrid_initGridDom. intros n e. by rewrite nodeAt_nil.
  - apply markersOk_initGridDom. intros n e. by rewrite nodeAt_nil.
Qed.

(** X12. When the markers are well formed and no alive cell has an alive
    neighbour, the step of part_000 is exact: every cell of the grid gets
    the state the rule gives it on the snapshot, births included. *)
Theorem part000_exact_when_alive_cells_do_not_touch (g : Grid) r c e :
  domOk g → isolated g → cellAt g r c = Some e →
  aliveAt (domOf (Part000.render g)) r c
  = lifeRule (aliveAt g r c) (aliveNeighborCount g r c).
Proof.
  intros [Hwf Hmk] Hiso He.
  destruct (Part000_render_Normal g) as [g' Hr]. rewrite Hr. cbn [domOf].
  rewrite (Part000_render_cell g g' r c e Hwf Hr He).
  case_decide as Hs; [done |].
  assert (Hwalk : Forall (λ m, ∃ e, nodeAt g m = Some e ∧ aliveTruthy e = true)
                    (Part000.querySelectorAllAlive g)).
  { apply Forall_forall. intros m Hm. unfold Part000.querySelectorAllAlive in Hm.
    apply list_elem_of_fmap in Hm as ([m' e'] & -> & Hin).
    apply list_elem_of_In, List.filter_In in Hin as [Hin Hd].
    apply list_elem_of_In, elem_of_cells in Hin. cbn [fst snd] in *.
    apply bool_decide_eq_true in Hd. exists e'. split; [done |].
    destruct (Hmk _ _ Hin) as [Hn | Ht]; unfold aliveTruthy; rewrite ?Hn, ?Ht.
    - rewrite Hn in Hd. by destruct Hd.
    - reflexivity. }
  destruct (isolated_walk g _ Hwf Hiso Hwalk) as [_ Hcov].
  fold (Part000.collect g) in Hcov.
  pose proof He as He0.
  apply cellAt_Some_nonneg in He0 as (Hr0 & Hc0 & He').
  assert (Hid : Part000.idOf g (Z.to_nat r, Z.to_nat c) = cellId r c).
  { unfold Part000.idOf. rewrite He', (Hwf _ _ He'). cbn [fst snd].
    by rewrite !Z2Nat.id. }
  assert (Hdead : aliveAt g r c = false).
  { destruct (aliveAt g r c) eqn:Ha; [| done]. destruct Hs.
    rewrite <- Hid. unfold Part000.idOf. rewrite He'.
    apply (alive_cells_seen g _ e He').
    unfold aliveAt in Ha. rewrite He in Ha. unfold aliveTruthy in Ha.
    destruct (data_alive e); [by eexists | done]. }
  rewrite Hdead.
  destruct (decide (aliveNeighborCount g r c = 0%nat)) as [-> | Hpos];
    [reflexivity |].
  destruct Hs.
  apply count_positive_neighbour in Hpos as (d & Hd & Ha).
  unfold aliveAt in Ha.
  destruct (cellAt g (r + d.1) (c + d.2)) as [e' |] eqn:He''; [| done].
  pose proof (neighbour_symmetric g r c e d e' Hwf He Hd He'') as Hin.
  apply cellAt_Some_nonneg in He'' as (Hr1 & Hc1 & He'').
  destruct (Hcov (Z.to_nat (r + d.1), Z.to_nat (c + d.2))) as [_ Hn].
  - unfold Part000.querySelectorAllAlive. apply list_elem_of_fmap.
    exists ((Z.to_nat (r + d.1), Z.to_nat (c + d.2)), e'). split; [done |].
    apply list_elem_of_In, List.filter_In. split.
    + by apply list_elem_of_In, elem_of_cells.
    + apply bool_decide_eq_true. cbn [snd]. unfold aliveTruthy in Ha.
      destruct (data_alive e'); [by eexists | done].
  - rewrite <- Hid. apply Hn. exact Hin.
Qed.

Lemma part000_exact_when_alive_cells_do_not_touch_witness :
  domOk tripod ∧ isolated tripod ∧ cellAt tripod 1 1 = Some (newColumn 1 1)
  ∧ aliveAt (domOf (Part000.render tripod)) 1 1
    = lifeRule (aliveAt tripod 1 1) (aliveNeighborCount tripod 1 1).
Proof.
  assert (Hok : domOk tripod) by apply domOk_clickAll, domOk_initGridDom.
  assert (Hiso : isolated tripod) by (apply isolatedb_spec; vm_compute; reflexivity).
  assert (He : cellAt tripod 1 1 = Some (newColumn 1 1)) by (vm_compute; reflexivity).
  split; [exact Hok |]. split; [exact Hiso |]. split; [exact He |].
  exact (part000_exact_when_alive_cells_do_not_touch tripod 1 1 _ Hok Hiso He).
Defined.

Example tripod_birth :
  aliveAt tripod 1 1 = false ∧ aliveAt (domOf (Part000.render tripod)) 1 1 = true.
Proof. split; vm_compute; reflexivity. Qed.

(** ** The handlers on the states the page can reach *)

(** X13. The clear button, in every reachable state: afterwards no cell
    carries [data-alive], so [querySelectorAll('[data-alive]')] finds
    nothing; the ids are as before; the clock is stopped, no interval is
    left that could fire, and the button reads Start. The drag mode is not
    reset. *)
Theorem clear_button_resets (sc : Script) (s : State) :
  sc ∈ scripts → reachable sc s →
  let s' := dispatch sc ClearBtnClick s in
  (∀ n e, nodeAt (grid s') n = Some e → data_alive e = None)
  ∧ (∀ n, node_id <$> nodeAt (grid s') n = node_id <$> nodeAt (grid s) n)
  ∧ Part000.querySelectorAllAlive (grid s') = []
  ∧ intervalId s' = None ∧ intervals s' = ∅
  ∧ (∀ id, ¬ enabled (IntervalFires id) s')
  ∧ playBtnText s' = "Start"%string
  ∧ dragType s' = dragType s.
Proof.
  intros Hsc Hs s'.
  destruct (reachable_domOk sc s Hsc Hs) as [_ Hmk].
  pose proof (reachable_clockOk sc s Hsc Hs) as Hck.
  destruct (pause_stops s Hck) as [_ Hint].
  assert (Hnone : ∀ n e, nodeAt (grid s') n = Some e → data_alive e = None).
  { intros n e. subst s'. cbn [dispatch]. unfold clearBtnClick.
    cbn [grid withGrid pause]. rewrite nodeAt_fmap_fmap.
    destruct (nodeAt (grid s) n) as [e0 |] eqn:He0; [| done].
    cbn. intros [= <-]. destruct (Hmk _ _ He0) as [Hd | Hd].
    - unfold aliveTruthy. by rewrite Hd.
    - unfold aliveTruthy. rewrite Hd. reflexivity. }
  split_and!; try done.
  - intros n. subst s'. cbn [dispatch]. unfold clearBtnClick.
    cbn [grid withGrid pause]. rewrite nodeAt_fmap_fmap.
    destruct (nodeAt (grid s) n) as [e |]; [| done]. cbn.
    by destruct (aliveTruthy e).
  - unfold Part000.querySelectorAllAlive.
    assert (Hf : ∀ l : list (NodeRef * Element),
               (∀ ne, ne ∈ l → data_alive ne.2 = None) →
               List.filter (λ ne, bool_decide (is_Some (data_alive ne.2))) l = []).
    { induction l as [| ne l IH]; [done |]. intros Hl. cbn [List.filter].
      rewrite (Hl ne) by by left. rewrite bool_decide_false by by intros [? ?].
      apply IH. intros ne' Hne'. apply Hl. by right. }
    rewrite Hf; [done |]. intros [n e] Hin. by apply elem_of_cells, Hnone in Hin.
  - intros id Hen. cbn [enabled] in Hen. subst s'. cbn [dispatch] in Hen.
    unfold clearBtnClick in Hen. cbn [intervals withGrid] in Hen.
    rewrite Hint in Hen. set_solver.
Qed.

Lemma clear_button_resets_witness :
  part000 ∈ scripts
  ∧ reachable part000 (dispatch part000 (MouseDown (OnCol (1, 1)%nat)) (running part000))
  ∧ let s := dispatch part000 (MouseDown (OnCol (1, 1)%nat)) (running part000) in
    let s' := dispatch part000 ClearBtnClick s in
    (∀ n e, nodeAt (grid s') n = Some e → data_alive e = None)
    ∧ (∀ n, node_id <$> nodeAt (grid s') n = node_id <$> nodeAt (grid s) n)
    ∧ Part000.querySelectorAllAlive (grid s') = []
    ∧ intervalId s' = None ∧ intervals s' = ∅
    ∧ (∀ id, ¬ enabled (IntervalFires id) s')
    ∧ playBtnText s' = "Start"%string
    ∧ dragType s' = dragType s.
Proof.
  assert (Hsc : part000 ∈ scripts) by (unfold scripts; right; left).
  assert (Hs : reachable part000
                 (dispatch part000 (MouseDown (OnCol (1, 1)%nat)) (running part000))).
  { apply reach_step; [apply reach_step; [apply reach_boot | exact I] |].
    eexists. reflexivity. }
  split; [exact Hsc |]. split; [exact Hs |].
  exact (clear_button_resets part000 _ Hsc Hs).
Defined.

(** X14. In every reachable state the ids locate the cells: the id of the
    cell at row [i], column [j] splits at the dash into the decimal
    numerals of [i] and [j], which [check] of part_000 reads back with
    [Number]; no two cells share an id; and [getNode], for any pair of
    integers, finds the cell at that position and [null] outside the grid,
    negative coordinates included. *)
Theorem ids_locate_cells (sc : Script) (s : State) :
  sc ∈ scripts → reachable sc s →
  (∀ n e, nodeAt (grid s) n = Some e →
     node_id e = pretty (Z.of_nat n.1) +:+ "-" +:+ pretty (Z.of_nat n.2)
     ∧ Number (split "-" (node_id e) !! 0%nat) = Some (Z.of_nat n.1)
     ∧ Number (split "-" (node_id e) !! 1%nat) = Some (Z.of_nat n.2))
  ∧ (∀ n m e e', nodeAt (grid s) n = Some e → nodeAt (grid s) m = Some e' →
       node_id e = node_id e' → n = m)
  ∧ (∀ r c, getNode (grid s) r c
            = if decide (0 ≤ r ∧ 0 ≤ c ∧ is_Some (nodeAt (grid s) (Z.to_nat r, Z.to_nat c)))
              then Some (Z.to_nat r, Z.to_nat c) else None).
Proof.
  intros Hsc Hs. destruct (reachable_domOk sc s Hsc Hs) as [Hwf _].
  split_and!.
  - intros n e He. destruct (check_coords (grid s) n e Hwf He) as (H0 & H1 & H2).
    unfold Part000.idOf in *. rewrite He in *. done.
  - intros [i j] [i' j'] e e' He He' Hid.
    rewrite (Hwf _ _ He), (Hwf _ _ He') in Hid.
    apply cellId_inj in Hid as [? ?]. cbn [fst snd] in *. f_equal; lia.
  - intros r c. rewrite getNode_wf by done. unfold cellAt.
    destruct (decide (0 ≤ r ∧ 0 ≤ c)) as [Hrc | Hrc].
    + destruct (nodeAt (grid s) (Z.to_nat r, Z.to_nat c)) as [e |] eqn:He.
      * rewrite decide_True; [done |]. split_and!; [lia | lia | by eexists].
      * rewrite decide_False; [done |]. intros (_ & _ & [? ?]). done.
    + rewrite decide_False; [done |]. intros (? & ? & _). by apply Hrc.
Qed.

Lemma ids_locate_cells_witness :
  gameJs ∈ scripts ∧ reachable gameJs (running gameJs)
  ∧ (∀ n e, nodeAt (grid (running gameJs)) n = Some e →
       node_id e = pretty (Z.of_nat n.1) +:+ "-" +:+ pretty (Z.of_nat n.2)
       ∧ Number (split "-" (node_id e) !! 0%nat) = Some (Z.of_nat n.1)
       ∧ Number (split "-" (node_id e) !! 1%nat) = Some (Z.of_nat n.2))
  ∧ (∀ n m e e', nodeAt (grid (running gameJs)) n = Some e →
       nodeAt (grid (running gameJs)) m = Some e' →
       node_id e = node_id e' → n = m)
  ∧ (∀ r c, getNode (grid (running gameJs)) r c
            = if decide (0 ≤ r ∧ 0 ≤ c
                         ∧ is_Some (nodeAt (grid (running gameJs))
                                      (Z.to_nat r, Z.to_nat c)))
              then Some (Z.to_nat r, Z.to_nat c) else None).
Proof.
  assert (Hsc : gameJs ∈ scripts) by (unfold scripts; left).
  assert (Hs : reachable gameJs (running gameJs)).
  { apply reach_step; [apply reach_boot | exact I]. }
  split; [exact Hsc |]. split; [exact Hs |].
  exact (ids_locate_cells gameJs _ Hsc Hs).
Defined.

(** ** Gestures *)

Lemma dragType_onDrag_start (sc : Script) (s : State) (n : NodeRef) :
  sc ∈ scripts →
  dragType (onDrag sc true (OnCol n) s)
  = Some (if targetNotTrue (grid s) n then DRAG_delete else DRAG_add).
Proof.
  intros Hsc. unfold scripts in Hsc.
  apply elem_of_cons in Hsc as [-> | Hsc];
    [| apply list_elem_of_singleton in Hsc as ->]; reflexivity.
Qed.

(** [column.onmouseenter] while a gesture is active. *)
Lemma onmouseenter_paints (s : State) (m : NodeRef) (dt : DragType) e1 :
  dragType s = Some dt → nodeAt (grid s) m = Some e1 →
  let s2 := onmouseenter m s in
  nodeAt (grid s2) m
  = Some (withAlive (if decide (dt = DRAG_add) then Some "true"%string else None) e1)
  ∧ (∀ k, k ≠ m → nodeAt (grid s2) k = nodeAt (grid s) k)
  ∧ dragType s2 = dragType s.
Proof.
  intros Hdt He1. unfold onmouseenter. rewrite Hdt.
  destruct dt; cbn [grid withGrid dragType]; unfold removeAlive, setAliveTrue;
    (split_and!;
     [ by rewrite nodeAt_updateNode, decide_True, He1 by done
     | intros k Hk; by rewrite nodeAt_updateNode, decide_False by done
     | done ]).
Qed.

(** X15. How a gesture picks its paint mode, in every reachable state and
    both scripts. A press of the mouse on a cell first toggles the cell
    and then reads it: the gesture paints the state the cell has just
    taken: add mode from a dead cell, delete mode from an alive one. A
    touch reads the cell without toggling it, and the same test then gives
    add mode from an alive cell and delete mode from a dead one, the cell
    staying as it was. In both cases every cell entered afterwards takes
    the state of the mode and no other cell changes. *)
Theorem gesture_start_sets_paint_mode (sc : Script) (s : State) (n : NodeRef) e :
  sc ∈ scripts → reachable sc s → nodeAt (grid s) n = Some e →
  let sm := dispatch sc (MouseDown (OnCol n)) s in
  let st := dispatch sc (TouchStart (OnCol n)) s in
  nodeAt (grid sm) n
    = Some (withAlive (if aliveTruthy e then None else Some "true"%string) e)
  ∧ (∀ k, k ≠ n → nodeAt (grid sm) k = nodeAt (grid s) k)
  ∧ dragType sm = Some (if aliveTruthy e then DRAG_delete else DRAG_add)
  ∧ grid st = grid s
  ∧ dragType st = Some (if aliveTruthy e then DRAG_add else DRAG_delete)
  ∧ ∀ s1 dt m e1,
      s1 = sm ∨ s1 = st → dragType s1 = Some dt → nodeAt (grid s1) m = Some e1 →
      let s2 := dispatch sc (MouseEnter m) s1 in
      (∃ e2, nodeAt (grid s2) m = Some e2 ∧ node_id e2 = node_id e1
             ∧ aliveTruthy e2 = bool_decide (dt = DRAG_add))
      ∧ (∀ k, k ≠ m → nodeAt (grid s2) k = nodeAt (grid s1) k)
      ∧ dragType s2 = Some dt.
Proof.
  intros Hsc Hs He sm st.
  destruct (reachable_domOk sc s Hsc Hs) as [_ Hmk].
  pose proof (markerOk_tests_agree e (Hmk _ _ He)) as Hagree.
  assert (Hgm : grid sm = onmousedown n (grid s)).
  { subst sm. cbn [dispatch]. by rewrite grid_onDrag. }
  assert (Hnm : nodeAt (grid sm) n
                = Some (withAlive (if aliveTruthy e then None
                                   else Some "true"%string) e)).
  { rewrite Hgm. unfold onmousedown. rewrite He, <- Hagree.
    destruct (aliveTruthy e); unfold removeAlive, setAliveTrue;
      by rewrite nodeAt_updateNode, decide_True, He by done. }
  split_and!.
  - exact Hnm.
  - intros k Hk. rewrite Hgm. unfold onmousedown. rewrite He.
    destruct (aliveIsTrue e); unfold removeAlive, setAliveTrue;
      by rewrite nodeAt_updateNode, decide_False by done.
  - subst sm. cbn [dispatch]. rewrite dragType_onDrag_start by done.
    cbn [grid withGrid]. f_equal. unfold targetNotTrue.
    cbn [dispatch] in Hgm, Hnm. rewrite grid_onDrag in Hnm by done.
    cbn [grid withGrid] in Hnm. rewrite Hnm.
    by destruct (aliveTruthy e).
  - subst st. cbn [dispatch]. by rewrite grid_onDrag.
  - subst st. cbn [dispatch]. rewrite dragType_onDrag_start by done.
    f_equal. unfold targetNotTrue. rewrite He, <- Hagree.
    by destruct (aliveTruthy e).
  - intros s1 dt m e1 _ Hdt He1 s2. subst s2. cbn [dispatch].
    destruct (onmouseenter_paints s1 m dt e1 Hdt He1) as (H1 & H2 & H3).
    cbv zeta in H1, H2, H3. split_and!.
    + eexists. split; [exact H1 |]. split; [done |].
      by destruct dt.
    + exact H2.
    + by rewrite H3.
Qed.

Lemma gesture_start_sets_paint_mode_witness :
  part000 ∈ scripts ∧ reachable part000 booted
  ∧ nodeAt (grid booted) (0, 1)%nat = Some (newColumn 0 1)
  ∧ let sm := dispatch part000 (MouseDown (OnCol (0, 1)%nat)) booted in
    let st := dispatch part000 (TouchStart (OnCol (0, 1)%nat)) booted in
    nodeAt (grid sm) (0, 1)%nat
      = Some (withAlive (if aliveTruthy (newColumn 0 1) then None
                         else Some "true"%string) (newColumn 0 1))
    ∧ (∀ k, k ≠ (0, 1)%nat → nodeAt (grid sm) k = nodeAt (grid booted) k)
    ∧ dragType sm
      = Some (if aliveTruthy (newColumn 0 1) then DRAG_delete else DRAG_add)
    ∧ grid st = grid booted
    ∧ dragType st
      = Some (if aliveTruthy (newColumn 0 1) then DRAG_add else DRAG_delete)
    ∧ ∀ s1 dt m e1,
        s1 = sm ∨ s1 = st → dragType s1 = Some dt →
        nodeAt (grid s1) m = Some e1 →
        let s2 := dispatch part000 (MouseEnter m) s1 in
        (∃ e2, nodeAt (grid s2) m = Some e2 ∧ node_id e2 = node_id e1
               ∧ aliveTruthy e2 = bool_decide (dt = DRAG_add))
        ∧ (∀ k, k ≠ m → nodeAt (grid s2) k = nodeAt (grid s1) k)
        ∧ dragType s2 = Some dt.
Proof.
  assert (Hsc : part000 ∈ scripts) by (unfold scripts; right; left).
  assert (Hs : reachable part000 booted) by apply reach_boot.
  assert (He : nodeAt (grid booted) (0, 1)%nat = Some (newColumn 0 1))
    by (vm_compute; reflexivity).
  split; [exact Hsc |]. split; [exact Hs |]. split; [exact He |].
  exact (gesture_start_sets_paint_mode part000 booted (0, 1)%nat _ Hsc Hs He).
Defined.

Lemma dragOk_onDragBody isDragStart target s :
  dragOk s → dragOk (onDragBody isDragStart target s).
Proof.
  intros [H1 H2]. unfold onDragBody, dragOk.
  destruct isDragStart, target as [n |]; cbn; try done.
  destruct (targetNotTrue (grid s) n); cbn; split; done.
Qed.

Lemma dragOk_same s s' :
  dragType s' = dragType s → deleteModeClass s' = deleteModeClass s →
  dragOk s → dragOk s'.
Proof. unfold dragOk. by intros -> ->. Qed.

Lemma dragOk_dispatch (sc : Script) ev s :
  sc ∈ scripts → dragOk s → dragOk (dispatch sc ev s).
Proof.
  intros Hsc Hs.
  assert (Hdrag : ∀ b target s0, dragOk s0 → dragOk (onDrag sc b target s0)).
  { intros b target s0 Hs0. unfold scripts in Hsc.
    apply elem_of_cons in Hsc as [-> | Hsc];
      [| apply list_elem_of_singleton in Hsc as ->]; cbn [onDrag gameJs part000].
    - apply dragOk_onDragBody. by apply (dragOk_same s0).
    - by apply dragOk_onDragBody. }
  destruct ev as [| | [n |] | | target | | n | height width | id]; cbn [dispatch];
    try (by apply Hdrag).
  - unfold playBtnClick. destruct (intervalId s); by apply (dragOk_same s).
  - by apply (dragOk_same s).
  - unfold onmouseenter. destruct (dragType s) as [[] |] eqn:Hd;
      [by apply (dragOk_same s).. | done].
  - by apply (dragOk_same s).
  - by apply (dragOk_same s).
Qed.

Lemma reachable_dragOk (sc : Script) s : sc ∈ scripts → reachable sc s → dragOk s.
Proof.
  intros Hsc Hs. induction Hs as [label height width | s ev Hs IH Hev].
  - split; [done | by intros [=]].
  - by apply dragOk_dispatch.
Qed.

Lemma reachable_pressedThrice (sc : Script) :
  sc ∈ scripts → reachable sc (pressedThrice sc).
Proof.
  intros Hsc. unfold pressedThrice, scripts in *.
  apply elem_of_cons in Hsc as [-> | Hsc];
    [| apply list_elem_of_singleton in Hsc as ->];
    (apply reach_step;
     [apply reach_step; [apply reach_step; [apply reach_boot |] |] |];
     eexists; vm_compute; reflexivity).
Qed.

(** X16. The drag mode over a run of the page, in both scripts. In every
    reachable state: when no gesture is active the class [grid--deleteMode]
    is off and moving over the cells changes nothing at all; in delete mode
    the class is on; and the end of a gesture ([mouseup] or [touchend] on
    the grid) clears the mode and the class and leaves the cells alone.
    The class can however outlive its mode: a new press without a release
    in between, which enters add mode, leaves it on. *)
Theorem drag_mode_invariant (sc : Script) (s : State) :
  sc ∈ scripts → reachable sc s →
  (dragType s = None →
     deleteModeClass s = false ∧ ∀ m, dispatch sc (MouseEnter m) s = s)
  ∧ (dragType s = Some DRAG_delete → deleteModeClass s = true)
  ∧ (∀ ev, ev = MouseUp ∨ ev = TouchEnd →
       dragType (dispatch sc ev s) = None
       ∧ deleteModeClass (dispatch sc ev s) = false
       ∧ grid (dispatch sc ev s) = grid s)
  ∧ reachable sc (pressedThrice sc)
  ∧ dragType (pressedThrice sc) = Some DRAG_add
  ∧ deleteModeClass (pressedThrice sc) = true.
Proof.
  intros Hsc Hs. destruct (reachable_dragOk sc s Hsc Hs) as [Hnone Hdel].
  split_and!.
  - intros Hd. split; [by apply Hnone |]. intros m. cbn [dispatch].
    unfold onmouseenter. by rewrite Hd.
  - exact Hdel.
  - intros ev Hev. unfold scripts in Hsc.
    apply elem_of_cons in Hsc as [-> | Hsc];
      [| apply list_elem_of_singleton in Hsc as ->];
      destruct Hev as [-> | ->]; done.
  - by apply reachable_pressedThrice.
  - unfold scripts in Hsc.
    apply elem_of_cons in Hsc as [-> | Hsc];
      [| apply list_elem_of_singleton in Hsc as ->]; vm_compute; reflexivity.
  - unfold scripts in Hsc.
    apply elem_of_cons in Hsc as [-> | Hsc];
      [| apply list_elem_of_singleton in Hsc as ->]; vm_compute; reflexivity.
Qed.

Lemma drag_mode_invariant_witness :
  gameJs ∈ scripts
  ∧ reachable gameJs (dispatch gameJs (MouseDown (OnCol (0, 0)%nat)) (running gameJs))
  ∧ let s := dispatch gameJs (MouseDown (OnCol (0, 0)%nat)) (running gameJs) in
    (dragType s = None →
       deleteModeClass s = false ∧ ∀ m, dispatch gameJs (MouseEnter m) s = s)
    ∧ (dragType s = Some DRAG_delete → deleteModeClass s = true)
    ∧ (∀ ev, ev = MouseUp ∨ ev = TouchEnd →
         dragType (dispatch gameJs ev s) = None
         ∧ deleteModeClass (dispatch gameJs ev s) = false
         ∧ grid (dispatch gameJs ev s) = grid s)
    ∧ reachable gameJs (pressedThrice gameJs)
    ∧ dragType (pressedThrice gameJs) = Some DRAG_add
    ∧ deleteModeClass (pressedThrice gameJs) = true.
Proof.
  assert (Hsc : gameJs ∈ scripts) by (unfold scripts; left).
  assert (Hs : reachable gameJs
                 (dispatch gameJs (MouseDown (OnCol (0, 0)%nat)) (running gameJs))).
  { apply reach_step; [apply reach_step; [apply reach_boot | exact I] |].
    eexists. reflexivity. }
  split; [exact Hsc |]. split; [exact Hs |].
  exact (drag_mode_invariant gameJs _ Hsc Hs).
Defined.

(** ** [debounce] *)

Lemma callTimes_snoc (evs : list DebounceEvent) ev :
  callTimes (evs ++ [ev])
  = callTimes evs ++ match ev with Called now => [now] | TimeoutDue _ _ => [] end.
Proof. unfold callTimes. rewrite omap_app. by destruct ev. Qed.

Lemma debounceRun_snoc time (evs : list DebounceEvent) ev :
  debounceRun time (evs ++ [ev]) = debounceStep time ev (debounceRun time evs).
Proof. unfold debounceRun. by rewrite foldl_app. Qed.

(** At most the timeout [timer] names is pending, and it comes due [time]
    after the latest call. *)
Lemma debounce_pending time (evs : list DebounceEvent) :
  let d := debounceRun time evs in
  (timeouts d = ∅
   ∨ ∃ id tc, timer d = Some id ∧ last (callTimes evs) = Some tc
              ∧ timeouts d = {[ id := tc + time ]})
  ∧ (length (cbRuns d) + size (timeouts d) ≤ length (callTimes evs))%nat.
Proof.
  induction evs as [| ev evs IH] using rev_ind; cbv zeta.
  - split; [by left |]. cbn. rewrite map_size_empty. lia.
  - cbv zeta in IH. destruct IH as [Hp Hn].
    rewrite debounceRun_snoc, callTimes_snoc.
    set (d := debounceRun time evs) in *.
    rewrite length_app.
    destruct ev as [now | id now]; cbn [debounceStep].
    + assert (Hclr : clearTimeout (timer d) (timeouts d) = ∅).
      { destruct Hp as [-> | (id & tc & -> & _ & ->)].
        - destruct (timer d); cbn [clearTimeout]; [apply delete_empty | done].
        - cbn [clearTimeout]. apply delete_singleton_eq. }
      unfold debounced. cbn [timer timeouts cbRuns]. rewrite Hclr. split.
      * right. exists (nextTimeoutId d), now. split; [done |].
        split; [by rewrite last_snoc | done].
      * rewrite insert_empty, map_size_singleton. cbn [length].
        assert (size (timeouts d) ≤ 1)%nat; [| lia].
        destruct Hp as [-> | (id & tc & _ & _ & ->)];
          [rewrite map_size_empty | rewrite map_size_singleton]; lia.
    + rewrite app_nil_r, Nat.add_0_r. unfold timeoutDue.
      destruct (timeouts d !! id) as [due |] eqn:Hid; [| done].
      case_decide as Hdue; [| done]. cbn [timer timeouts cbRuns].
      destruct Hp as [Hp | (id' & tc & Ht & Hl & Hp)];
        [by rewrite Hp, lookup_empty in Hid |].
      rewrite Hp in Hid. apply lookup_singleton_Some in Hid as [<- <-].
      rewrite Hp, delete_singleton_eq. split; [by left |].
      rewrite Hp, map_size_singleton in Hn. rewrite map_size_empty. cbn [length].
      lia.
Qed.

Lemma cbRuns_burst time (evs : list DebounceEvent) (ts : list Z) :
  cbRuns (debounceRun time (evs ++ (Called <$> ts))) = cbRuns (debounceRun time evs).
Proof.
  induction ts as [| t ts IH] using rev_ind.
  - by rewrite app_nil_r.
  - rewrite fmap_app, app_assoc. cbn [fmap list_fmap].
    by rewrite debounceRun_snoc.
Qed.

(** X17. [debounce], over any run of calls and timeouts coming due: at most
    one timeout is pending, it is the one [timer] names, and it is due
    [time] after the latest call; [cb] has run at most once per call, the
    pending timeout counted in. A burst of calls runs nothing and leaves
    exactly one timeout pending, whatever was pending before it. *)
Theorem debounce_keeps_one_timeout (time : Z) (evs : list DebounceEvent) :
  let d := debounceRun time evs in
  (size (timeouts d) ≤ 1)%nat
  ∧ (∀ id due, timeouts d !! id = Some due →
       timer d = Some id ∧ ∃ tc, last (callTimes evs) = Some tc ∧ due = tc + time)
  ∧ (length (cbRuns d) + size (timeouts d) ≤ length (callTimes evs))%nat
  ∧ ∀ ts t,
      let d' := debounceRun time (evs ++ (Called <$> ts ++ [t])) in
      cbRuns d' = cbRuns d
      ∧ ∃ id, timer d' = Some id ∧ timeouts d' = {[ id := t + time ]}.
Proof.
  cbv zeta. destruct (debounce_pending time evs) as [Hp Hn]. cbv zeta in Hp, Hn.
  split_and!.
  - destruct Hp as [-> | (id & tc & _ & _ & ->)];
      [rewrite map_size_empty | rewrite map_size_singleton]; lia.
  - intros id due Hid.
    destruct Hp as [Hp | (id' & tc & Ht & Hl & Hp)];
      [by rewrite Hp, lookup_empty in Hid |].
    rewrite Hp in Hid. apply lookup_singleton_Some in Hid as [<- <-].
    split; [done |]. by exists tc.
  - exact Hn.
  - intros ts t. split; [apply cbRuns_burst |].
    rewrite fmap_app, app_assoc. cbn [fmap list_fmap].
    destruct (debounce_pending time ((evs ++ (Called <$> ts)) ++ [Called t]))
      as [Hp' _]. cbv zeta in Hp'.
    destruct Hp' as [Hp' | (id & tc & Ht & Hl & Hp')].
    + rewrite debounceRun_snoc in Hp'. cbn in Hp'.
      by apply insert_non_empty in Hp'.
    + exists id. split; [done |]. rewrite callTimes_snoc, last_snoc in Hl.
      by injection Hl as <-.
Qed.

(** X18. [cb] runs only after a quiet period: when a timeout coming due at
    the moment [now] makes [cb] run, there was a call, the latest call was
    at least [time] before [now], the timeout is the one that call set,
    and nothing is pending afterwards. *)
Theorem debounce_runs_after_quiet (time : Z) (evs : list DebounceEvent)
    (id : nat) (now : Z) :
  let d := debounceRun time evs in
  cbRuns (timeoutDue id now d) ≠ cbRuns d →
  cbRuns (timeoutDue id now d) = now :: cbRuns d
  ∧ timer d = Some id
  ∧ (∃ tc, last (callTimes evs) = Some tc ∧ tc + time ≤ now)
  ∧ timeouts (timeoutDue id now d) = ∅.
Proof.
  cbv zeta. destruct (debounce_pending time evs) as [Hp _]. cbv zeta in Hp.
  unfold timeoutDue.
  destruct (timeouts (debounceRun time evs) !! id) as [due |] eqn:Hid; [| done].
  case_decide as Hdue; [| done]. cbn [cbRuns timeouts]. intros _.
  destruct Hp as [Hp | (id' & tc & Ht & Hl & Hp)];
    [by rewrite Hp, lookup_empty in Hid |].
  rewrite Hp in Hid. apply lookup_singleton_Some in Hid as [<- <-].
  split_and!; [done | done | by exists tc |].
  rewrite Hp. apply delete_singleton_eq.
Qed.

Lemma debounce_runs_after_quiet_witness :
  let d := debounceRun 500 [Called 0; Called 120; Called 499] in
  cbRuns (timeoutDue 3 1000 d) ≠ cbRuns d
  ∧ cbRuns (timeoutDue 3 1000 d) = 1000 :: cbRuns d
  ∧ timer d = Some 3%nat
  ∧ (∃ tc, last (callTimes [Called 0; Called 120; Called 499]) = Some tc
           ∧ tc + 500 ≤ 1000)
  ∧ timeouts (timeoutDue 3 1000 d) = ∅.
Proof.
  cbv zeta.
  assert (H : cbRuns (timeoutDue 3 1000
                        (debounceRun 500 [Called 0; Called 120; Called 499]))
              ≠ cbRuns (debounceRun 500 [Called 0; Called 120; Called 499]))
    by (vm_compute; discriminate).
  split; [exact H |].
  exact (debounce_runs_after_quiet 500 [Called 0; Called 120; Called 499] 3 1000 H).
Defined.

Example debounce_burst_runs_once :
  let d := debounceRun 500 [Called 0; Called 120; Called 499] in
  cbRuns d = []
  ∧ cbRuns (timeoutDue 3 998 d) = []
  ∧ cbRuns (timeoutDue 1 1000 d) = []
  ∧ cbRuns (timeoutDue 3 1000 (timeoutDue 3 999 d)) = [999].
Proof. cbv zeta. split_and!; vm_compute; reflexivity. Qed.
